(** * Wire codec of stacks-transactions-js: types.ts and the payload module

    A shallow embedding of [src/types.ts] (addresses, principals,
    length-prefixed strings, memos, asset identifiers, length-prefixed lists)
    and of the payload module ([smartContractPayload], [coinbasePayload],
    [serializePayload], ...), followed by the properties of the codec.

    Conventions.
    - A [Buffer] is a list of bytes.
    - A JavaScript string is represented by the sequence of its UTF-8 code
      units (a Rocq [string]); [Buffer.from(s)] and [buf.toString()] are then
      the two directions of the same identification.  This is exact for
      well-formed text, which is what the codec is meant to carry.
    - A JavaScript [number] that holds a length, a version or a width is a
      [Z]; a [BigNum] is a [Z] as well.
    - [throw] is the [Throw] constructor of [Result]; a function that ends
      without [return] yields [undefined], written [None].
    - The [BufferReader] cursor is threaded explicitly: a decoder is a
      function from the remaining bytes to a result and the bytes left. *)

From Stdlib Require Import ZArith List String Ascii Bool Lia.
From Stdlib Require Import NArith.
From Stdlib Require Import Init.Byte Strings.Byte Strings.HexString.
Import ListNotations.

Open Scope Z_scope.
Open Scope list_scope.

(** ** Errors and results *)

Inductive Error : Type :=
| InvalidNumberOfPublicKeys            (* 'Invalid number of public keys' *)
| InvalidNumberOfKeysOrSignatures      (* 'Invalid number of public keys or signatures' *)
| PublicKeysMustBeCompressed           (* 'Public keys must be compressed for segwit' *)
| InvalidAddressHashMode               (* 'Invalid Address Hash Mode' *)
| StringLengthExceedsMaximum (maxLength : Z)  (* `String length exceeds maximum bytes N` *)
| MemoExceedsMaximumLength (maxLength : Z)    (* `Memo exceeds maximum length of N bytes` *)
| UnexpectedPrincipalPayloadType
    (* 'Unexpected Principal payload type: ${n}': the literal is single-quoted,
       so the text is not interpolated and the message does not show the byte *)
| PropertyOfUndefined                  (* TypeError: a property of undefined is read *)
| CoinbaseBufferSize (expected : Z)           (* `Coinbase buffer size must be N bytes` *)
| ByteArrayLongerThanDesirableLength   (* assertion of bn.js toArrayLike *)
| ConcatOfUndefined                    (* TypeError of Buffer.concat on a non-buffer entry *)
| UnexpectedEof                        (* reader: fewer bytes left than requested *)
| UnknownPayloadType (n : byte)        (* payload decoder: tag byte of no known kind *)
| ExternalFailure (msg : string).      (* thrown by an external collaborator *)

Inductive Result (A : Type) : Type :=
| Ok (a : A)
| Throw (e : Error).

Arguments Ok {A} a.
Arguments Throw {A} e.

Definition bindResult {A B : Type} (m : Result A) (k : A -> Result B) : Result B :=
  match m with
  | Ok a => k a
  | Throw e => Throw e
  end.

Notation "'let?' x ':=' m 'in' k" := (bindResult m (fun x => k))
  (at level 10, x name, m at level 100, k at level 200).

(** ** Node.js runtime: Buffer, string padding, hexadecimal *)

Definition Buffer : Type := list byte.

Definition byteOfN (n : N) : byte :=
  match Byte.of_N (n mod 256) with
  | Some b => b
  | None => x00
  end.

(** [buf.byteLength] *)
Definition byteLength (b : Buffer) : Z := Z.of_nat (List.length b).

(** [Buffer.from(s)] and [buf.toString()], UTF-8. *)
Definition Buffer_from (s : string) : Buffer := list_byte_of_string s.
Definition Buffer_toString (b : Buffer) : string := string_of_list_byte b.

Fixpoint repeatChar (c : ascii) (n : nat) : string :=
  match n with
  | O => EmptyString
  | S k => String c (repeatChar c k)
  end.

(** [s.padStart(targetLength, c)] and [s.padEnd(targetLength, c)]: the
    string is returned unchanged when it is already long enough. *)
Definition padStart (s : string) (targetLength : Z) (c : ascii) : string :=
  (repeatChar c (Z.to_nat targetLength - String.length s) ++ s)%string.

Definition padEnd (s : string) (targetLength : Z) (c : ascii) : string :=
  (s ++ repeatChar c (Z.to_nat targetLength - String.length s))%string.

(** [n.toString(16)] on an integer. *)
Definition toString16 (n : Z) : string :=
  match n with
  | Z0 => "0"%string
  | Zpos p => HexString.Raw.of_pos p EmptyString
  | Zneg p => String "-" (HexString.Raw.of_pos p EmptyString)
  end.

Definition hexDigit (d : N) : ascii :=
  match d with
  | 0 => "0" | 1 => "1" | 2 => "2" | 3 => "3"
  | 4 => "4" | 5 => "5" | 6 => "6" | 7 => "7"
  | 8 => "8" | 9 => "9" | 10 => "a" | 11 => "b"
  | 12 => "c" | 13 => "d" | 14 => "e" | _ => "f"
  end%N%char.

(** [Buffer.from(s, 'hex')]: pairs of hexadecimal digits (either case) are
    decoded until a pair is not hexadecimal or fewer than two characters are
    left; the rest of the string is dropped. *)
Fixpoint Buffer_from_hex (s : string) : Buffer :=
  match s with
  | String c1 (String c2 rest) =>
      match HexString.ascii_to_digit c1, HexString.ascii_to_digit c2 with
      | Some h, Some l => byteOfN (16 * h + l) :: Buffer_from_hex rest
      | _, _ => []
      end
  | _ => []
  end.

Definition hexOfByte (b : byte) : string :=
  let n := Byte.to_N b in
  String (hexDigit (n / 16)) (String (hexDigit (n mod 16)) EmptyString).

(** [buf.toString('hex')]: two lower-case digits per byte. *)
Fixpoint Buffer_toString_hex (b : Buffer) : string :=
  match b with
  | [] => EmptyString
  | x :: rest => (hexOfByte x ++ Buffer_toString_hex rest)%string
  end.

(** [parseInt(s, 16)] on a string of hexadecimal digits: the digits up to
    the first character that is not one.  (No sign, prefix or white space:
    the codec only parses the output of [toString('hex')].)  With no leading
    digit JavaScript yields [NaN]; the value 0 stands for it here, and the
    only place that can see it, the loop bound of
    [deserializeLengthPrefixedList] with a zero-width prefix, runs no
    iteration with either. *)
Fixpoint parseHexDigits (s : string) (acc : N) : N :=
  match s with
  | EmptyString => acc
  | String c rest =>
      match HexString.ascii_to_digit c with
      | Some v => parseHexDigits rest (16 * acc + v)
      | None => acc
      end
  end.

(** bn.js: [n.toArrayLike(Buffer, 'be', length)] writes the magnitude of
    [n] big-endian on [length] bytes and asserts that it fits. *)
Fixpoint bigEndian (length : nat) (n : N) : Buffer :=
  match length with
  | O => []
  | S k => bigEndian k (n / 256) ++ [byteOfN n]
  end.

Definition toArrayLike_be (n : Z) (length : nat) : Result Buffer :=
  let m := Z.abs_N n in
  if (m <? 256 ^ N.of_nat length)%N
  then Ok (bigEndian length m)
  else Throw ByteArrayLongerThanDesirableLength.


(** JavaScript [x || d] on an optional number: [undefined] and [0] are
    falsy. *)
Definition orDefault (x : option Z) (d : Z) : Z :=
  match x with
  | None => d
  | Some v => if v =? 0 then d else v
  end.

(** ** utils.ts *)

(** Modelled from the spec: [BufferArray] of utils.ts is not in the sources;
    section 4.1 describes an append-only ordered accumulator of byte chunks
    with [appendByte], [append] ([push]), [appendHexEncoded]
    ([appendHexString]: decodes hex then appends) and [toBytes]
    ([concatBuffer]: all chunks in order), with no failure modes of its
    own. *)
Definition BufferArray : Type := list Buffer.

Definition BufferArray_new : BufferArray := [].

Definition push (a : BufferArray) (chunk : Buffer) : BufferArray := a ++ [chunk].

Definition appendHexString (a : BufferArray) (hexString : string) : BufferArray :=
  push a (Buffer_from_hex hexString).

Definition appendByte (a : BufferArray) (octet : byte) : BufferArray :=
  push a [octet].

Definition concatBuffer (a : BufferArray) : Buffer := List.concat a.

(** Modelled from the spec: [push] and [concatBuffer] as above on entries
    that are buffers.  The serializers also push the value returned by
    [serializeStacksMessage], which is [undefined] when no case of its
    switch matches.  An entry is then [None]; section 4.1 says nothing of
    such an entry, and [Buffer.concat] is taken to raise its TypeError on
    it. *)
Definition pushReturned (a : list (option Buffer)) (chunk : option Buffer)
    : list (option Buffer) :=
  a ++ [chunk].

Fixpoint concatReturned (a : list (option Buffer)) : Result Buffer :=
  match a with
  | [] => Ok []
  | None :: _ => Throw ConcatOfUndefined
  | Some chunk :: rest =>
      let? tail := concatReturned rest in Ok (chunk ++ tail)
  end.

(** Modelled from the spec: [intToHexString] of utils.ts is not in the
    sources; section 4.3 has integer-to-bytes conversion for big-endian
    unsigned fields of a given width, and the callers pass the result to
    [appendHexString]: the hexadecimal digits of the integer, left-padded
    with zeros to two characters per byte. *)
Definition intToHexString (integer : Z) (lengthBytes : Z) : string :=
  padStart (toString16 integer) (lengthBytes * 2) "0".

(** Modelled from the spec: [hexStringToInt] of utils.ts is not in the
    sources; section 4.3 has the bytes-to-integer direction, and the callers
    pass it the hexadecimal rendering of the bytes read. *)
Definition hexStringToInt (hexString : string) : Z :=
  Z.of_N (parseHexDigits hexString 0).

(** Modelled from the spec: [exceedsMaxLengthBytes] of utils.ts is not in
    the sources; section 4.3 describes [exceedsMaxLength(content, max)] as a
    boolean comparison of the encoded byte length, not the character count,
    against the ceiling.  "Exceeds" is read as strictly greater, as in the
    two error messages of types.ts ('String length exceeds maximum bytes',
    'Memo exceeds maximum length') and in section 3, where a memo of exactly
    the ceiling is valid. *)
Definition exceedsMaxLengthBytes (s : string) (maxLengthBytes : Z) : bool :=
  byteLength (Buffer_from s) >? maxLengthBytes.

(** Modelled from the spec: [rightPadHexToLength] of utils.ts is not in the
    sources; section 4.3 has a routine that right-pads with zeros to an
    exact target width and never truncates.  It works on the hexadecimal
    rendering, the width being counted in characters. *)
Definition rightPadHexToLength (hexString : string) (length : Z) : string :=
  padEnd hexString length "0".

(** ** binaryReader.ts *)

(** Modelled from the spec: [BufferReader] of binaryReader.ts is not in the
    sources; section 4.2 describes a forward-only cursor with [readBytes(n)]
    ([readBuffer]) returning the next [n] bytes and advancing by [n],
    [readUint8] a single-byte read, [readEnum] a byte mapped through a
    discriminant validator, and a failure when [n] exceeds the bytes left.
    A read is a function of the bytes not yet consumed. *)
Definition Read (A : Type) : Type := Buffer -> Result (A * Buffer).

Definition ret {A : Type} (a : A) : Read A := fun rest => Ok (a, rest).

Definition bind {A B : Type} (m : Read A) (k : A -> Read B) : Read B :=
  fun rest =>
    match m rest with
    | Ok (a, rest') => k a rest'
    | Throw e => Throw e
    end.

Definition lift {A : Type} (r : Result A) : Read A :=
  fun rest =>
    match r with
    | Ok a => Ok (a, rest)
    | Throw e => Throw e
    end.

Notation "x <- m ;; k" := (bind m (fun x => k))
  (at level 100, m at next level, right associativity).

Definition readBuffer (n : Z) : Read Buffer :=
  fun rest =>
    let k := Z.to_nat n in
    if (k <=? List.length rest)%nat
    then Ok (firstn k rest, skipn k rest)
    else Throw UnexpectedEof.

Definition readByte : Read byte :=
  fun rest =>
    match rest with
    | [] => Throw UnexpectedEof
    | b :: rest' => Ok (b, rest')
    end.

Definition readUInt8 : Read Z :=
  b <- readByte ;; ret (Z.of_N (Byte.to_N b)).

(** [readUInt8Enum(enum, invalid)]: the byte read must be the value of a
    member of the enum, listed in [members]; otherwise [invalid] throws. *)
Definition readUInt8Enum {E : Type} (value : E -> byte) (members : list E)
    (invalid : byte -> Error) : Read E :=
  b <- readByte ;;
  match find (fun m => Byte.eqb (value m) b) members with
  | Some m => ret m
  | None => lift (Throw (invalid b))
  end.

(** Run a decoder on a whole buffer. *)
Definition decode {A : Type} (m : Read A) (buffer : Buffer) : Result (A * Buffer) :=
  m buffer.

(** ** types.ts and constants.ts: enumerations *)

(** [StacksMessageType] is declared in types.ts, without initializers: its
    members are numbered from 0 in the order of declaration. *)
Module StacksMessageType.
Inductive t : Type := Address | LengthPrefixedString | MemoString | AssetInfo.
Definition value (x : t) : Z :=
  match x with
  | Address => 0
  | LengthPrefixedString => 1
  | MemoString => 2
  | AssetInfo => 3
  end.
End StacksMessageType.

(** Modelled from the spec: constants.ts is not in the sources.  Section 3
    has two kinds of principal, standard and contract, told apart by a
    discriminant tag, four hash modes and five kinds of payload; the
    members below are those, under the names types.ts and the payload
    module use.  Their numeric values are parameters of the development
    (see the section variables further down). *)
Module PrincipalType.
Inductive t : Type := Standard | Contract.
Definition members : list t := [Standard; Contract].
End PrincipalType.

Module AddressHashMode.
Inductive t : Type :=
| SerializeP2PKH | SerializeP2SH | SerializeP2WPKH | SerializeP2WSH.
End AddressHashMode.

Module PayloadType.
Inductive t : Type :=
| TokenTransfer | ContractCall | SmartContract | PoisonMicroblock | Coinbase.
Definition members : list t :=
  [TokenTransfer; ContractCall; SmartContract; PoisonMicroblock; Coinbase].
End PayloadType.

(** The [type] property of a message: a member of [StacksMessageType] or of
    [PrincipalType], the union [StacksMessageType | PrincipalType] of
    [deserializeLengthPrefixedList].  At run time it is the number of the
    member (see [MessageTypeTag_number]), and the two switches on it
    compare numbers. *)
Inductive MessageTypeTag : Type :=
| OfStacksMessageType (t : StacksMessageType.t)
| OfPrincipalType (t : PrincipalType.t).

(** The serializer a case of the switch of [serializeStacksMessage]
    calls. *)
Inductive SerializerCase : Type :=
| CaseAddress
| CasePrincipal
| CaseLengthPrefixedString
| CaseMemoString
| CaseAssetInfo.

(** ** types.ts: data model

    The [type] property of each interface has a literal type; it is not a
    field of the records below but is given by [StacksMessage_type]. *)

Module Address.
Record t : Type := { version : Z; data : string }.
End Address.

Module LengthPrefixedString.
Record t : Type := {
  content : string;
  lengthPrefixBytes : Z;
  maxLengthBytes : Z
}.
End LengthPrefixedString.

Module MemoString.
Record t : Type := { content : string }.
End MemoString.

Inductive Principal : Type :=
| StandardPrincipal (address : Address.t)
| ContractPrincipal (address : Address.t) (contractName : LengthPrefixedString.t).

Definition Principal_type (p : Principal) : PrincipalType.t :=
  match p with
  | StandardPrincipal _ => PrincipalType.Standard
  | ContractPrincipal _ _ => PrincipalType.Contract
  end.

Definition Principal_address (p : Principal) : Address.t :=
  match p with
  | StandardPrincipal a => a
  | ContractPrincipal a _ => a
  end.

Module AssetInfo.
Record t : Type := {
  address : Address.t;
  contractName : LengthPrefixedString.t;
  assetName : LengthPrefixedString.t
}.
End AssetInfo.

(** The object literal returned by the [assetInfo] factory: the three
    fields of an asset identifier and no [type] property (its inferred type
    is the anonymous [{ address, contractName, assetName }]). *)
Module AssetInfoFields.
Record t : Type := {
  address : Address.t;
  contractName : LengthPrefixedString.t;
  assetName : LengthPrefixedString.t
}.
End AssetInfoFields.

(** The objects that reach [serializeStacksMessage] at run time. *)
Inductive StacksMessage : Type :=
| MsgAddress (a : Address.t)
| MsgPrincipal (p : Principal)
| MsgLengthPrefixedString (s : LengthPrefixedString.t)
| MsgMemoString (m : MemoString.t)
| MsgAssetInfo (i : AssetInfo.t)
| MsgUntagged (o : AssetInfoFields.t).

(** [message.type]; [None] is [undefined], the property being absent. *)
Definition StacksMessage_type (message : StacksMessage) : option MessageTypeTag :=
  match message with
  | MsgAddress _ => Some (OfStacksMessageType StacksMessageType.Address)
  | MsgPrincipal p => Some (OfPrincipalType (Principal_type p))
  | MsgLengthPrefixedString _ =>
      Some (OfStacksMessageType StacksMessageType.LengthPrefixedString)
  | MsgMemoString _ => Some (OfStacksMessageType StacksMessageType.MemoString)
  | MsgAssetInfo _ => Some (OfStacksMessageType StacksMessageType.AssetInfo)
  | MsgUntagged _ => None
  end.

Module LengthPrefixedList.
Record t : Type := {
  lengthPrefixBytes : Z;
  values : list StacksMessage
}.
End LengthPrefixedList.

(** ** types.ts and constants.ts: versions

    [AddressVersion] is declared in types.ts with its values.
    [TransactionVersion] comes from constants.ts; the members below are the
    two the sources name. *)

Module TransactionVersion.
Inductive t : Type := Mainnet | Testnet.
End TransactionVersion.

Module AddressVersion.
Inductive t : Type :=
| MainnetSingleSig | MainnetMultiSig | TestnetSingleSig | TestnetMultiSig.
Definition value (v : t) : Z :=
  match v with
  | MainnetSingleSig => 22
  | MainnetMultiSig => 20
  | TestnetSingleSig => 26
  | TestnetMultiSig => 21
  end.
End AddressVersion.

(** ** The principal module of the Clarity codec: data model

    The two principal values of the Clarity codec; their [type] property is
    a literal of [ClarityType] and is given by the record.  The functions of
    the module throw the errors of types.ts and one of their own. *)

Module StandardPrincipalCV.
Record t : Type := { address : Address.t }.
End StandardPrincipalCV.

Module ContractPrincipalCV.
Record t : Type := {
  address : Address.t;
  contractName : LengthPrefixedString.t
}.
End ContractPrincipalCV.

Inductive ClarityError : Type :=
| ContractNameTooLong          (* 'Contract name must be less than 128 bytes' *)
| Raised (e : Error).          (* thrown by a function of types.ts *)

Inductive ClarityResult (A : Type) : Type :=
| Returned (a : A)
| Failed (e : ClarityError).

Arguments Returned {A} a.
Arguments Failed {A} e.

(** ** Well-formed values

    What a constructor of the library can produce and the wire can carry:
    an address has a one-byte version and a hash of 20 bytes, written as 40
    lower-case hexadecimal digits (the form [c32addressDecode] and
    [toString('hex')] produce). *)

Definition isLowerHexChar (c : ascii) : bool :=
  existsb (Ascii.eqb c) (list_ascii_of_string "0123456789abcdef").

Fixpoint isLowerHex (s : string) : bool :=
  match s with
  | EmptyString => true
  | String c rest => isLowerHexChar c && isLowerHex rest
  end.

Definition validAddress (a : Address.t) : Prop :=
  0 <= Address.version a < 256
  /\ String.length (Address.data a) = 40%nat
  /\ isLowerHex (Address.data a) = true.

(** The string of [n] NUL characters. *)
Definition nulString (n : nat) : string := repeatChar zero n.

(** The numeral of [n] on [digits] hexadecimal digits, most significant
    first, in front of [rest]. *)
Fixpoint hexNumeral (digits : nat) (n : N) (rest : string) : string :=
  match digits with
  | O => rest
  | S d => hexNumeral d (n / 16) (String (hexDigit (n mod 16)) rest)
  end.

(** ** A concrete choice of the parameters

    Values of the constants, of the enumerations and of the external
    routines at which the definitions are evaluated in the examples at the
    end of the file. *)
Module Sample.
Definition MAX_STRING_LENGTH_BYTES : Z := 128.
Definition MEMO_MAX_LENGTH_BYTES : Z := 34.
Definition COINBASE_BUFFER_LENGTH_BYTES : Z := 32.

Definition PrincipalType_value (t : PrincipalType.t) : byte :=
  match t with
  | PrincipalType.Standard => x05
  | PrincipalType.Contract => x06
  end.

Definition PayloadType_value (t : PayloadType.t) : byte :=
  match t with
  | PayloadType.TokenTransfer => x00
  | PayloadType.SmartContract => x01
  | PayloadType.ContractCall => x02
  | PayloadType.PoisonMicroblock => x03
  | PayloadType.Coinbase => x04
  end.

Definition hash : string := "a46ff88886c2ef9762d970b4d2c63678835bd39d".

(** A decoder of checksummed addresses that knows one address. *)
Definition c32addressDecode (c32AddressString : string) : Result (Z * string) :=
  if String.eqb c32AddressString "SP2J6ZY48GV1EZ5V2V5RB9MP66SW86PYKKNRV9EJ7"
  then Ok (22, hash)
  else Throw (ExternalFailure "Invalid c32 address").

Definition anAddress : Address.t :=
  {| Address.version := 22; Address.data := hash |}.

(** Public keys as hexadecimal strings; the compressed ones do not start
    with 04. *)
Definition compressed (key : string) : bool :=
  negb (String.prefix "04" key).

(** No Clarity value is needed in the examples. *)
Definition serializeCV (v : unit) : Result Buffer := Ok [].
End Sample.

Section Codec.

(** *** Parameters: what constants.ts, keys.ts, c32check and the Clarity
    codec provide *)

Variable MAX_STRING_LENGTH_BYTES : Z.
Variable MEMO_MAX_LENGTH_BYTES : Z.
Variable COINBASE_BUFFER_LENGTH_BYTES : Z.

(** Numeric values of the two enumerations that go on the wire, one byte
    each. *)
Variable PrincipalType_value : PrincipalType.t -> byte.
Variable PayloadType_value : PayloadType.t -> byte.

(** c32check: [c32addressDecode] returns the version and the hash (as a
    hexadecimal string) of a checksummed address, or throws. *)
Variable c32addressDecode : string -> Result (Z * string).

(** keys.ts and utils.ts: a public key with its [compressed()] and
    [toString()] methods, and the hash of [hash_p2pkh]. *)
Context {StacksPublicKey : Type}.
Variable compressed : StacksPublicKey -> bool.
Variable publicKey_toString : StacksPublicKey -> string.
Variable hash_p2pkh : string -> string.

(** clarity/: an opaque value codec. *)
Context {ClarityValue : Type}.
Variable serializeCV : ClarityValue -> Result Buffer.
Variable deserializeCV : Read ClarityValue.

(** *** Address *)

Definition address (c32AddressString : string) : Result Address.t :=
  let? addressData := c32addressDecode c32AddressString in
  Ok {| Address.version := fst addressData; Address.data := snd addressData |}.

Definition addressFromData (version : Z) (data : string) : Address.t :=
  {| Address.version := version; Address.data := data |}.

(** [hashMode === SerializeP2PKH || hashMode === SerializeP2WPKH] *)
Definition isSingleSigMode (hashMode : AddressHashMode.t) : bool :=
  match hashMode with
  | AddressHashMode.SerializeP2PKH | AddressHashMode.SerializeP2WPKH => true
  | _ => false
  end.

(** [hashMode === SerializeP2WPKH || hashMode === SerializeP2WSH] *)
Definition isWitnessMode (hashMode : AddressHashMode.t) : bool :=
  match hashMode with
  | AddressHashMode.SerializeP2WPKH | AddressHashMode.SerializeP2WSH => true
  | _ => false
  end.

Definition fromPublicKeys (version : Z) (hashMode : AddressHashMode.t)
    (numSigs : Z) (publicKeys : list StacksPublicKey) : Result Address.t :=
  match publicKeys with
  | [] => Throw InvalidNumberOfPublicKeys
  | publicKey0 :: _ =>
      if isSingleSigMode hashMode
         && (negb (Nat.eqb (List.length publicKeys) 1) || negb (numSigs =? 1))
      then Throw InvalidNumberOfKeysOrSignatures
      else if isWitnessMode hashMode && negb (forallb compressed publicKeys)
      then Throw PublicKeysMustBeCompressed
      else
        match hashMode with
        | AddressHashMode.SerializeP2PKH =>
            Ok (addressFromData version (hash_p2pkh (publicKey_toString publicKey0)))
        | _ => Throw InvalidAddressHashMode
        end
  end.

Definition serializeAddress (address : Address.t) : Buffer :=
  let bufferArray := BufferArray_new in
  let bufferArray :=
    appendHexString bufferArray (intToHexString (Address.version address) 1) in
  let bufferArray := appendHexString bufferArray (Address.data address) in
  concatBuffer bufferArray.

Definition deserializeAddress : Read Address.t :=
  versionByte <- readBuffer 1 ;;
  let version := hexStringToInt (Buffer_toString_hex versionByte) in
  dataBytes <- readBuffer 20 ;;
  let data := Buffer_toString_hex dataBytes in
  ret {| Address.version := version; Address.data := data |}.

(** *** LengthPrefixedString *)

Definition lengthPrefixedString (content : string)
    (lengthPrefixBytes maxLengthBytes : option Z) : Result LengthPrefixedString.t :=
  let prefixLength := orDefault lengthPrefixBytes 1 in
  let maxLength := orDefault maxLengthBytes MAX_STRING_LENGTH_BYTES in
  if exceedsMaxLengthBytes content maxLength
  then Throw (StringLengthExceedsMaximum maxLength)
  else Ok {| LengthPrefixedString.content := content;
             LengthPrefixedString.lengthPrefixBytes := prefixLength;
             LengthPrefixedString.maxLengthBytes := maxLength |}.

Definition serializeLPString (lps : LengthPrefixedString.t) : Buffer :=
  let bufferArray := BufferArray_new in
  let contentBuffer := Buffer_from (LengthPrefixedString.content lps) in
  let length := byteLength contentBuffer in
  let bufferArray :=
    appendHexString bufferArray
      (intToHexString length (LengthPrefixedString.lengthPrefixBytes lps)) in
  let bufferArray := push bufferArray contentBuffer in
  concatBuffer bufferArray.

Definition deserializeLPString : Read LengthPrefixedString.t :=
  length <- readUInt8 ;;
  contentBytes <- readBuffer length ;;
  let content := Buffer_toString contentBytes in
  lift (lengthPrefixedString content (Some length) None).

Definition codeBodyString (content : string) : Result LengthPrefixedString.t :=
  lengthPrefixedString content (Some 4) (Some 100000).

(** *** Principal *)

Definition standardPrincipal (addressString : string) : Result Principal :=
  let? addr := address addressString in
  Ok (StandardPrincipal addr).

Definition contractPrincipal (addressString contractName : string)
    : Result Principal :=
  let? addr := address addressString in
  let? name := lengthPrefixedString contractName None None in
  Ok (ContractPrincipal addr name).

Definition serializePrincipal (principal : Principal) : Buffer :=
  let bufferArray := BufferArray_new in
  let bufferArray :=
    push bufferArray [PrincipalType_value (Principal_type principal)] in
  let bufferArray :=
    push bufferArray (serializeAddress (Principal_address principal)) in
  let bufferArray :=
    match principal with
    | ContractPrincipal _ contractName =>
        push bufferArray (serializeLPString contractName)
    | StandardPrincipal _ => bufferArray
    end in
  concatBuffer bufferArray.

Definition deserializePrincipal : Read Principal :=
  type <- readUInt8Enum PrincipalType_value PrincipalType.members
            (fun n => UnexpectedPrincipalPayloadType) ;;
  address <- deserializeAddress ;;
  match type with
  | PrincipalType.Standard => ret (StandardPrincipal address)
  | PrincipalType.Contract =>
      contractName <- deserializeLPString ;;
      ret (ContractPrincipal address contractName)
  end.

(** *** MemoString *)

Definition memoString (content : string) : Result MemoString.t :=
  if negb (String.eqb content EmptyString)
     && exceedsMaxLengthBytes content MEMO_MAX_LENGTH_BYTES
  then Throw (MemoExceedsMaximumLength MEMO_MAX_LENGTH_BYTES)
  else Ok {| MemoString.content := content |}.

Definition serializeMemoString (memoString : MemoString.t) : Buffer :=
  let bufferArray := BufferArray_new in
  let contentBuffer := Buffer_from (MemoString.content memoString) in
  let paddedContent :=
    rightPadHexToLength (Buffer_toString_hex contentBuffer)
      (MEMO_MAX_LENGTH_BYTES * 2) in
  let bufferArray := push bufferArray (Buffer_from_hex paddedContent) in
  concatBuffer bufferArray.

Definition deserializeMemoString : Read MemoString.t :=
  contentBytes <- readBuffer MEMO_MAX_LENGTH_BYTES ;;
  let content := Buffer_toString contentBytes in
  ret {| MemoString.content := content |}.

(** *** AssetInfo *)

Definition assetInfo (addressString contractName assetName : string)
    : Result AssetInfoFields.t :=
  let? addr := address addressString in
  let? contractName := lengthPrefixedString contractName None None in
  let? assetName := lengthPrefixedString assetName None None in
  Ok {| AssetInfoFields.address := addr;
        AssetInfoFields.contractName := contractName;
        AssetInfoFields.assetName := assetName |}.

Definition serializeAssetInfo (info : AssetInfo.t) : Buffer :=
  let bufferArray := BufferArray_new in
  let bufferArray := push bufferArray (serializeAddress (AssetInfo.address info)) in
  let bufferArray :=
    push bufferArray (serializeLPString (AssetInfo.contractName info)) in
  let bufferArray :=
    push bufferArray (serializeLPString (AssetInfo.assetName info)) in
  concatBuffer bufferArray.

Definition deserializeAssetInfo : Read AssetInfo.t :=
  address <- deserializeAddress ;;
  contractName <- deserializeLPString ;;
  assetName <- deserializeLPString ;;
  ret {| AssetInfo.address := address;
         AssetInfo.contractName := contractName;
         AssetInfo.assetName := assetName |}.

(** *** The dispatcher *)

(** The numbers that the members of [PrincipalType] and the [type] of a
    message are at run time. *)
Definition PrincipalType_number (t : PrincipalType.t) : Z :=
  Z.of_N (Byte.to_N (PrincipalType_value t)).

Definition MessageTypeTag_number (type : MessageTypeTag) : Z :=
  match type with
  | OfStacksMessageType t => StacksMessageType.value t
  | OfPrincipalType t => PrincipalType_number t
  end.

(** [switch (message.type)]: the labels are compared with the number, by
    [===], in the order in which they are written; the first that is equal
    is taken. *)
Definition serializerCase (type : Z) : option SerializerCase :=
  if type =? StacksMessageType.value StacksMessageType.Address
  then Some CaseAddress
  else if type =? PrincipalType_number PrincipalType.Standard
  then Some CasePrincipal
  else if type =? PrincipalType_number PrincipalType.Contract
  then Some CasePrincipal
  else if type =? StacksMessageType.value StacksMessageType.LengthPrefixedString
  then Some CaseLengthPrefixedString
  else if type =? StacksMessageType.value StacksMessageType.MemoString
  then Some CaseMemoString
  else if type =? StacksMessageType.value StacksMessageType.AssetInfo
  then Some CaseAssetInfo
  else None.

(** [serializePrincipal] on an asset identifier whose type number, 3, is
    the number of a kind of principal: the object has an [address] and a
    [contractName], and the name is written when 3 is the number of
    [PrincipalType.Contract]. *)
Definition serializePrincipalOfAssetInfo (info : AssetInfo.t) : Buffer :=
  let bufferArray := BufferArray_new in
  let bufferArray := push bufferArray [x03] in
  let bufferArray := push bufferArray (serializeAddress (AssetInfo.address info)) in
  let bufferArray :=
    if StacksMessageType.value StacksMessageType.AssetInfo
       =? PrincipalType_number PrincipalType.Contract
    then push bufferArray (serializeLPString (AssetInfo.contractName info))
    else bufferArray in
  concatBuffer bufferArray.

(** The types of TypeScript are erased: the serializer of the case taken
    receives the object whatever its shape.
    - With no [type] property no label is equal and the function ends
      without returning a buffer.
    - A principal whose number is that of [StacksMessageType.Address] goes
      to [serializeAddress], which finds no [version] and no [data] in it.
      Modelled from the spec: the helpers of utils.ts that receive them are
      specified on integers and hexadecimal strings (section 4.3); on
      [undefined] they are taken to raise a TypeError.
    - A string or a memo whose number is that of a kind of principal goes
      to [serializePrincipal]: it has no [address], and
      [serializeAddress(undefined)] reads [undefined.version], a TypeError.
    - An asset identifier whose number is that of a kind of principal goes
      to [serializePrincipal] too, and is written as a principal.
    The pairs of a case and an object that are not listed do not arise (see
    [serializeStacksMessage_returns]). *)
Definition serializeStacksMessage (message : StacksMessage)
    : Result (option Buffer) :=
  match StacksMessage_type message with
  | None => Ok None
  | Some type =>
      match serializerCase (MessageTypeTag_number type), message with
      | Some CaseAddress, MsgAddress a => Ok (Some (serializeAddress a))
      | Some CaseAddress, MsgPrincipal _ => Throw PropertyOfUndefined
      | Some CasePrincipal, MsgPrincipal p => Ok (Some (serializePrincipal p))
      | Some CasePrincipal, MsgLengthPrefixedString _
      | Some CasePrincipal, MsgMemoString _ => Throw PropertyOfUndefined
      | Some CasePrincipal, MsgAssetInfo i =>
          Ok (Some (serializePrincipalOfAssetInfo i))
      | Some CaseLengthPrefixedString, MsgLengthPrefixedString s =>
          Ok (Some (serializeLPString s))
      | Some CaseMemoString, MsgMemoString m => Ok (Some (serializeMemoString m))
      | Some CaseAssetInfo, MsgAssetInfo i => Ok (Some (serializeAssetInfo i))
      | _, _ => Ok None
      end
  end.

(** [bufferArray.push(serializeStacksMessage(message))] *)
Definition pushMessage (bufferArray : list (option Buffer))
    (message : StacksMessage) : Result (list (option Buffer)) :=
  let? chunk := serializeStacksMessage message in
  Ok (pushReturned bufferArray chunk).

(** *** LengthPrefixedList *)

Definition lengthPrefixedList (values : list StacksMessage)
    (lengthPrefixBytes : option Z) : LengthPrefixedList.t :=
  {| LengthPrefixedList.lengthPrefixBytes := orDefault lengthPrefixBytes 4;
     LengthPrefixedList.values := values |}.

(** [for (...) { bufferArray.push(serializeStacksMessage(list[index])); }] *)
Fixpoint pushMessages (bufferArray : list (option Buffer))
    (messages : list StacksMessage) : Result (list (option Buffer)) :=
  match messages with
  | [] => Ok bufferArray
  | message :: rest =>
      let? bufferArray := pushMessage bufferArray message in
      pushMessages bufferArray rest
  end.

Definition serializeLengthPrefixedList (lengthPrefixedList : LengthPrefixedList.t)
    : Result Buffer :=
  let list := LengthPrefixedList.values lengthPrefixedList in
  let bufferArray :=
    pushReturned []
      (Some (Buffer_from_hex
               (intToHexString (Z.of_nat (List.length list))
                  (LengthPrefixedList.lengthPrefixBytes lengthPrefixedList)))) in
  let? bufferArray := pushMessages bufferArray list in
  concatReturned bufferArray.

(** The body of the loop of [deserializeLengthPrefixedList] is a switch
    whose cases do not end in [break]: control enters at the first label
    equal to the number of [type] and runs every statement below it.
    [fromXCase] is the statement list from the label of X to the end of the
    switch. *)
Definition fromPrincipalCase (l : list StacksMessage) : Read (list StacksMessage) :=
  p <- deserializePrincipal ;;
  ret (l ++ [MsgPrincipal p]).

Definition fromAssetInfoCase (l : list StacksMessage) : Read (list StacksMessage) :=
  i <- deserializeAssetInfo ;;
  fromPrincipalCase (l ++ [MsgAssetInfo i]).

Definition fromMemoStringCase (l : list StacksMessage) : Read (list StacksMessage) :=
  m <- deserializeMemoString ;;
  fromAssetInfoCase (l ++ [MsgMemoString m]).

Definition fromLengthPrefixedStringCase (l : list StacksMessage)
    : Read (list StacksMessage) :=
  s <- deserializeLPString ;;
  fromMemoStringCase (l ++ [MsgLengthPrefixedString s]).

Definition fromAddressCase (l : list StacksMessage) : Read (list StacksMessage) :=
  a <- deserializeAddress ;;
  fromLengthPrefixedStringCase (l ++ [MsgAddress a]).

Definition listSwitch (type : MessageTypeTag) (l : list StacksMessage)
    : Read (list StacksMessage) :=
  let type := MessageTypeTag_number type in
  if type =? StacksMessageType.value StacksMessageType.Address
  then fromAddressCase l
  else if type =? StacksMessageType.value StacksMessageType.LengthPrefixedString
  then fromLengthPrefixedStringCase l
  else if type =? StacksMessageType.value StacksMessageType.MemoString
  then fromMemoStringCase l
  else if type =? StacksMessageType.value StacksMessageType.AssetInfo
  then fromAssetInfoCase l
  else if (type =? PrincipalType_number PrincipalType.Standard)
          || (type =? PrincipalType_number PrincipalType.Contract)
  then fromPrincipalCase l
  else ret l.

(** [for (let index = 0; index < length; index++)], by the number of
    iterations left. *)
Fixpoint listLoop (iterations : nat) (type : MessageTypeTag)
    (l : list StacksMessage) : Read (list StacksMessage) :=
  match iterations with
  | O => ret l
  | S k => l' <- listSwitch type l ;; listLoop k type l'
  end.

Definition deserializeLengthPrefixedList (lengthPrefixBytes : Z)
    (type : MessageTypeTag) : Read LengthPrefixedList.t :=
  countBytes <- readBuffer lengthPrefixBytes ;;
  let length := hexStringToInt (Buffer_toString_hex countBytes) in
  l <- listLoop (Z.to_nat length) type [] ;;
  ret (lengthPrefixedList l (Some lengthPrefixBytes)).

(** *** Payloads *)

Inductive Payload : Type :=
| TokenTransferPayload (recipientAddress : Address.t) (amount : Z)
    (memo : MemoString.t)
| ContractCallPayload (contractAddress : Address.t)
    (contractName functionName : LengthPrefixedString.t)
    (functionArgs : list ClarityValue)
| SmartContractPayload (contractName codeBody : LengthPrefixedString.t)
| PoisonPayload
| CoinbasePayload (coinbaseBuffer : Buffer).

Definition payloadType (payload : Payload) : PayloadType.t :=
  match payload with
  | TokenTransferPayload _ _ _ => PayloadType.TokenTransfer
  | ContractCallPayload _ _ _ _ => PayloadType.ContractCall
  | SmartContractPayload _ _ => PayloadType.SmartContract
  | PoisonPayload => PayloadType.PoisonMicroblock
  | CoinbasePayload _ => PayloadType.Coinbase
  end.


Definition contractCallPayload (contractAddress contractName functionName : string)
    (functionArgs : list ClarityValue) : Result Payload :=
  let? contractAddress := address contractAddress in
  let? contractName := lengthPrefixedString contractName None None in
  let? functionName := lengthPrefixedString functionName None None in
  Ok (ContractCallPayload contractAddress contractName functionName functionArgs).

Definition smartContractPayload (contractName codeBody : string) : Result Payload :=
  let? name := lengthPrefixedString contractName None None in
  let? body := codeBodyString contractName in
  Ok (SmartContractPayload name body).

Definition poisonPayload : Payload := PoisonPayload.

Definition coinbasePayload (coinbaseBuffer : Buffer) : Result Payload :=
  if negb (byteLength coinbaseBuffer =? COINBASE_BUFFER_LENGTH_BYTES)
  then Throw (CoinbaseBufferSize COINBASE_BUFFER_LENGTH_BYTES)
  else Ok (CoinbasePayload coinbaseBuffer).

(** [payload.functionArgs.forEach(arg => bufferArray.push(serializeCV(arg)))] *)
Fixpoint pushArgs (bufferArray : list (option Buffer)) (args : list ClarityValue)
    : Result (list (option Buffer)) :=
  match args with
  | [] => Ok bufferArray
  | arg :: rest =>
      let? chunk := serializeCV arg in
      pushArgs (pushReturned bufferArray (Some chunk)) rest
  end.

Definition serializePayload (payload : Payload) : Result Buffer :=
  let bufferArray := pushReturned [] (Some [PayloadType_value (payloadType payload)]) in
  let? bufferArray :=
    match payload with
    | TokenTransferPayload recipientAddress amount memo =>
        let? bufferArray := pushMessage bufferArray (MsgAddress recipientAddress) in
        let? amountBuffer := toArrayLike_be amount 8 in
        let bufferArray := pushReturned bufferArray (Some amountBuffer) in
        pushMessage bufferArray (MsgMemoString memo)
    | ContractCallPayload contractAddress contractName functionName functionArgs =>
        let? bufferArray := pushMessage bufferArray (MsgAddress contractAddress) in
        let? bufferArray :=
          pushMessage bufferArray (MsgLengthPrefixedString contractName) in
        let? bufferArray :=
          pushMessage bufferArray (MsgLengthPrefixedString functionName) in
        let numArgs := bigEndian 4 (N.of_nat (List.length functionArgs)) in
        let bufferArray := pushReturned bufferArray (Some numArgs) in
        pushArgs bufferArray functionArgs
    | SmartContractPayload contractName codeBody =>
        let? bufferArray :=
          pushMessage bufferArray (MsgLengthPrefixedString contractName) in
        pushMessage bufferArray (MsgLengthPrefixedString codeBody)
    | PoisonPayload =>
        (* TODO: implement *)
        Ok bufferArray
    | CoinbasePayload coinbaseBuffer =>
        Ok (pushReturned bufferArray (Some coinbaseBuffer))
    end in
  concatReturned bufferArray.



(** *** Address versions *)

(** The [default] branches of the two switches throw on a value outside
    the enumerations; no member reaches them. *)
Definition addressHashModeToVersion (hashMode : AddressHashMode.t)
    (txVersion : TransactionVersion.t) : AddressVersion.t :=
  match hashMode with
  | AddressHashMode.SerializeP2PKH =>
      match txVersion with
      | TransactionVersion.Mainnet => AddressVersion.MainnetSingleSig
      | TransactionVersion.Testnet => AddressVersion.TestnetSingleSig
      end
  | AddressHashMode.SerializeP2SH
  | AddressHashMode.SerializeP2WPKH
  | AddressHashMode.SerializeP2WSH =>
      match txVersion with
      | TransactionVersion.Mainnet => AddressVersion.MainnetMultiSig
      | TransactionVersion.Testnet => AddressVersion.TestnetMultiSig
      end
  end.

Definition fromHashMode (hashMode : AddressHashMode.t)
    (txVersion : TransactionVersion.t) (data : string) : Address.t :=
  let version := addressHashModeToVersion hashMode txVersion in
  addressFromData (AddressVersion.value version) data.

(** *** Clarity principals *)

Definition standardPrincipalCV (addressString : string)
    : Result StandardPrincipalCV.t :=
  let? addr := address addressString in
  Ok {| StandardPrincipalCV.address := addr |}.

Definition standardPrincipalCVFromAddress (address : Address.t)
    : StandardPrincipalCV.t :=
  {| StandardPrincipalCV.address := address |}.

Definition contractPrincipalCVFromAddress (address : Address.t)
    (contractName : LengthPrefixedString.t) : ClarityResult ContractPrincipalCV.t :=
  if byteLength (Buffer_from (LengthPrefixedString.content contractName)) >=? 128
  then Failed ContractNameTooLong
  else Returned {| ContractPrincipalCV.address := address;
                   ContractPrincipalCV.contractName := contractName |}.

Definition contractPrincipalCV (addressString contractName : string)
    : ClarityResult ContractPrincipalCV.t :=
  match address addressString with
  | Throw e => Failed (Raised e)
  | Ok addr =>
      match lengthPrefixedString contractName None None with
      | Throw e => Failed (Raised e)
      | Ok lengthPrefixedContractName =>
          contractPrincipalCVFromAddress addr lengthPrefixedContractName
      end
  end.

Definition contractPrincipalCVFromStandard (sp : StandardPrincipalCV.t)
    (contractName : string) : Result ContractPrincipalCV.t :=
  let? lengthPrefixedContractName := lengthPrefixedString contractName None None in
  Ok {| ContractPrincipalCV.address := StandardPrincipalCV.address sp;
        ContractPrincipalCV.contractName := lengthPrefixedContractName |}.

(** *** Values the decoders can read back

    A length-prefixed string is written with the width it was built
    with, and read with a one-byte length and the default bound: the
    decoder recovers the content of the strings whose prefix is one byte
    wide and whose content fits both one byte of length and the default
    bound.  A memo fits its fixed width. *)
Definition decodableString (s : LengthPrefixedString.t) : Prop :=
  LengthPrefixedString.lengthPrefixBytes s = 1
  /\ byteLength (Buffer_from (LengthPrefixedString.content s)) <= 255
  /\ byteLength (Buffer_from (LengthPrefixedString.content s))
     <= MAX_STRING_LENGTH_BYTES.

Definition memoFits (m : MemoString.t) : Prop :=
  byteLength (Buffer_from (MemoString.content m)) <= MEMO_MAX_LENGTH_BYTES.

(** The zero bytes that pad a memo to its fixed width. *)
Definition memoPadding (m : MemoString.t) : nat :=
  Z.to_nat (MEMO_MAX_LENGTH_BYTES - byteLength (Buffer_from (MemoString.content m))).

(** *** Tags that keep the kinds apart

    The two switches compare numbers.  [notPrincipalNumber s]: the number
    of the member [s] of [StacksMessageType] is the number of no kind of
    principal, so that the switch of [serializeStacksMessage], which tries
    the labels of the principals before that of [s] (unless [s] is
    [Address]), takes the case of [s].  [tagsApart]: this holds of the four
    members; the switches then tell a principal from the other
    messages. *)
Definition notPrincipalNumber (s : StacksMessageType.t) : Prop :=
  forall p : PrincipalType.t,
    PrincipalType_number p <> StacksMessageType.value s.

Definition tagsApart : Prop :=
  forall s : StacksMessageType.t, notPrincipalNumber s.

(** The number of values one iteration of the loop of
    [deserializeLengthPrefixedList] pushes when the tags are apart: the
    statements from the case of [type] to the end of the switch. *)
Definition pushedPerIteration (type : MessageTypeTag) : nat :=
  match type with
  | OfStacksMessageType StacksMessageType.Address => 5
  | OfStacksMessageType StacksMessageType.LengthPrefixedString => 4
  | OfStacksMessageType StacksMessageType.MemoString => 3
  | OfStacksMessageType StacksMessageType.AssetInfo => 2
  | OfPrincipalType _ => 1
  end.

(** The conditions [fromPublicKeys] checks before it looks at what the
    hash mode is: some key, one key and one signature for the
    single-signature modes, compressed keys for the witness modes. *)
Definition validationsPass (hashMode : AddressHashMode.t) (numSigs : Z)
    (publicKeys : list StacksPublicKey) : Prop :=
  publicKeys <> []
  /\ (isSingleSigMode hashMode = true ->
      List.length publicKeys = 1%nat /\ numSigs = 1)
  /\ (isWitnessMode hashMode = true ->
      forall key, In key publicKeys -> compressed key = true).

(** ** Properties *)

(** *** Hexadecimal and bytes *)

Lemma Buffer_from_hex_hexOfByte (x : byte) (rest : string) :
  Buffer_from_hex (hexOfByte x ++ rest)%string = x :: Buffer_from_hex rest.
Proof. destruct x; reflexivity. Qed.

Lemma hexOfByte_append (x : byte) (s t : string) :
  ((hexOfByte x ++ s) ++ t)%string = (hexOfByte x ++ (s ++ t))%string.
Proof. reflexivity. Qed.

Lemma Buffer_from_hex_toString_hex_app (b : Buffer) (rest : string) :
  Buffer_from_hex (Buffer_toString_hex b ++ rest)%string = b ++ Buffer_from_hex rest.
Proof.
  induction b as [|x b IH]; [reflexivity|].
  cbn [Buffer_toString_hex].
  rewrite hexOfByte_append, Buffer_from_hex_hexOfByte, IH.
  reflexivity.
Qed.

Lemma append_empty_r (s : string) : (s ++ EmptyString)%string = s.
Proof. induction s as [|c s IH]; cbn; [reflexivity|now rewrite IH]. Qed.

Lemma Buffer_from_hex_toString_hex (b : Buffer) :
  Buffer_from_hex (Buffer_toString_hex b) = b.
Proof.
  rewrite <- (append_empty_r (Buffer_toString_hex b)).
  rewrite Buffer_from_hex_toString_hex_app. cbn. apply app_nil_r.
Qed.

Lemma length_toString_hex (b : Buffer) :
  String.length (Buffer_toString_hex b) = (2 * List.length b)%nat.
Proof.
  induction b as [|x b IH]; [reflexivity|].
  cbn [Buffer_toString_hex List.length]. unfold hexOfByte.
  cbn [String.append String.length]. rewrite IH. lia.
Qed.

Lemma Buffer_from_hex_zeros (k : nat) :
  Buffer_from_hex (repeatChar "0" (2 * k)) = repeat x00 k.
Proof.
  induction k as [|k IH]; [reflexivity|].
  replace (2 * S k)%nat with (S (S (2 * k))) by lia.
  cbn [repeatChar repeat].
  change (Buffer_from_hex (String "0" (String "0" (repeatChar "0" (2 * k)))))
    with (x00 :: Buffer_from_hex (repeatChar "0" (2 * k))).
  now rewrite IH.
Qed.

Lemma intToHexString_byte (b : byte) :
  Buffer_from_hex (intToHexString (Z.of_N (Byte.to_N b)) 1) = [b].
Proof. destruct b; reflexivity. Qed.

Lemma hexStringToInt_byte (b : byte) :
  hexStringToInt (Buffer_toString_hex [b]) = Z.of_N (Byte.to_N b).
Proof. destruct b; reflexivity. Qed.

Lemma to_N_byteOfN (n : N) : (n < 256)%N -> Byte.to_N (byteOfN n) = n.
Proof.
  intros H. unfold byteOfN. rewrite N.mod_small by exact H.
  destruct (Byte.of_N n) as [b|] eqn:E.
  - now apply Byte.to_of_N.
  - apply Byte.of_N_None_iff in E. lia.
Qed.

(** A width of one byte holds every integer below 256. *)
Lemma intToHexString_small (n : Z) :
  0 <= n < 256 -> Buffer_from_hex (intToHexString n 1) = [byteOfN (Z.to_N n)].
Proof.
  intros H.
  rewrite <- (intToHexString_byte (byteOfN (Z.to_N n))).
  rewrite to_N_byteOfN by lia. now rewrite Z2N.id by lia.
Qed.

Lemma isLowerHexChar_hexDigit (c : ascii) :
  isLowerHexChar c = true ->
  exists d, (d < 16)%N /\ c = hexDigit d /\ HexString.ascii_to_digit c = Some d.
Proof.
  unfold isLowerHexChar. intros H. apply existsb_exists in H.
  destruct H as [x [Hin Heq]]. apply Ascii.eqb_eq in Heq. subst x.
  cbn in Hin.
  repeat (destruct Hin as [<-|Hin];
    [match goal with
     | |- exists d, _ /\ ?c = _ /\ _ =>
         let v := eval vm_compute in (HexString.ascii_to_digit c) in
         match v with Some ?d => exists d; repeat split; reflexivity end
     end|]).
  destruct Hin.
Qed.

Lemma hexOfByte_digits (h l : N) :
  (h < 16)%N -> (l < 16)%N ->
  hexOfByte (byteOfN (16 * h + l))
  = String (hexDigit h) (String (hexDigit l) EmptyString).
Proof.
  intros Hh Hl. unfold hexOfByte. rewrite to_N_byteOfN by lia.
  replace ((16 * h + l) / 16)%N with h.
  2:{ symmetry. rewrite N.mul_comm, N.div_add_l by lia.
      rewrite N.div_small by lia. lia. }
  replace ((16 * h + l) mod 16)%N with l.
  2:{ symmetry. rewrite N.add_comm, N.mul_comm, N.Div0.mod_add.
      now apply N.mod_small. }
  reflexivity.
Qed.

(** Lower-case hexadecimal text of even length survives the passage
    through bytes. *)
Lemma toString_hex_from_hex (n : nat) : forall s : string,
  String.length s = (2 * n)%nat -> isLowerHex s = true ->
  Buffer_toString_hex (Buffer_from_hex s) = s
  /\ List.length (Buffer_from_hex s) = n.
Proof.
  induction n as [|n IH]; intros s Hlen Hhex.
  - destruct s; [split; reflexivity | discriminate].
  - destruct s as [|c1 [|c2 s]]; cbn [String.length] in Hlen; try lia.
    cbn [isLowerHex] in Hhex.
    apply andb_true_iff in Hhex. destruct Hhex as [H1 Hhex].
    apply andb_true_iff in Hhex. destruct Hhex as [H2 Hhex].
    destruct (isLowerHexChar_hexDigit _ H1) as [h [Hh [-> Eh]]].
    destruct (isLowerHexChar_hexDigit _ H2) as [l [Hl [-> El]]].
    cbn [Buffer_from_hex]. rewrite Eh, El.
    cbn [Buffer_toString_hex List.length].
    rewrite hexOfByte_digits by assumption.
    destruct (IH s) as [IH1 IH2]; [lia | assumption |].
    rewrite IH1, IH2. split; reflexivity.
Qed.

Lemma toString_cons (x : byte) (b : Buffer) :
  Buffer_toString (x :: b) = String (ascii_of_byte x) (Buffer_toString b).
Proof. reflexivity. Qed.

Lemma toString_repeat_x00 (n : nat) :
  Buffer_toString (repeat x00 n) = nulString n.
Proof.
  induction n as [|n IH]; [reflexivity|].
  cbn [repeat]. rewrite toString_cons, IH. reflexivity.
Qed.

Lemma toString_app (a b : Buffer) :
  Buffer_toString (a ++ b) = (Buffer_toString a ++ Buffer_toString b)%string.
Proof.
  induction a as [|x a IH]; [reflexivity|].
  cbn [app]. rewrite !toString_cons, IH. reflexivity.
Qed.

Lemma toString_from (s : string) : Buffer_toString (Buffer_from s) = s.
Proof. apply string_of_list_byte_of_string. Qed.

(** *** The reader *)

Lemma firstn_length_app {A : Type} (a rest : list A) :
  firstn (List.length a) (a ++ rest) = a.
Proof. induction a as [|x a IH]; cbn; [reflexivity|now rewrite IH]. Qed.

Lemma skipn_length_app {A : Type} (a rest : list A) :
  skipn (List.length a) (a ++ rest) = rest.
Proof. induction a as [|x a IH]; cbn; [reflexivity|exact IH]. Qed.

Lemma readBuffer_app (n : Z) (a rest : Buffer) :
  n = byteLength a -> readBuffer n (a ++ rest) = Ok (a, rest).
Proof.
  intros ->. unfold readBuffer, byteLength. rewrite Nat2Z.id.
  replace (List.length a <=? List.length (a ++ rest))%nat with true.
  - now rewrite firstn_length_app, skipn_length_app.
  - symmetry. apply Nat.leb_le. rewrite length_app. lia.
Qed.

Lemma readBuffer_eof (n : Z) (rest : Buffer) :
  byteLength rest < n -> readBuffer n rest = Throw UnexpectedEof.
Proof.
  intros H. unfold readBuffer, byteLength in *.
  replace (Z.to_nat n <=? List.length rest)%nat with false; [reflexivity|].
  symmetry. apply Nat.leb_gt. lia.
Qed.

Lemma bind_Ok {A B : Type} (m : Read A) (k : A -> Read B)
    (input rest : Buffer) (a : A) :
  m input = Ok (a, rest) -> bind m k input = k a rest.
Proof. intros H. unfold bind. now rewrite H. Qed.

Lemma bind_Throw {A B : Type} (m : Read A) (k : A -> Read B)
    (input : Buffer) (e : Error) :
  m input = Throw e -> bind m k input = Throw e.
Proof. intros H. unfold bind. now rewrite H. Qed.

Lemma readUInt8_cons (b : byte) (rest : Buffer) :
  readUInt8 (b :: rest) = Ok (Z.of_N (Byte.to_N b), rest).
Proof. reflexivity. Qed.

Lemma readUInt8_nil : readUInt8 [] = Throw UnexpectedEof.
Proof. reflexivity. Qed.

(** *** Address *)

Lemma serializeAddress_eq (a : Address.t) :
  serializeAddress a
  = Buffer_from_hex (intToHexString (Address.version a) 1)
    ++ Buffer_from_hex (Address.data a).
Proof.
  unfold serializeAddress, appendHexString, push, concatBuffer, BufferArray_new.
  cbn. now rewrite app_nil_r.
Qed.

Lemma serializeAddress_valid (a : Address.t) :
  validAddress a ->
  exists hashBytes,
    serializeAddress a = byteOfN (Z.to_N (Address.version a)) :: hashBytes
    /\ List.length hashBytes = 20%nat
    /\ Buffer_toString_hex hashBytes = Address.data a.
Proof.
  intros [Hv [Hlen Hhex]].
  destruct (toString_hex_from_hex 20 (Address.data a) Hlen Hhex) as [E1 E2].
  exists (Buffer_from_hex (Address.data a)).
  rewrite serializeAddress_eq, intToHexString_small by exact Hv.
  repeat split; assumption.
Qed.

Lemma length_serializeAddress (a : Address.t) :
  validAddress a -> List.length (serializeAddress a) = 21%nat.
Proof.
  intros H. destruct (serializeAddress_valid a H) as [h [-> [Hlen _]]].
  cbn. now rewrite Hlen.
Qed.

Lemma deserializeAddress_serializeAddress (a : Address.t) (rest : Buffer) :
  validAddress a ->
  deserializeAddress (serializeAddress a ++ rest) = Ok (a, rest).
Proof.
  intros H. destruct (serializeAddress_valid a H) as [h [-> [Hlen Hhex]]].
  destruct H as [Hv _]. destruct a as [v d]. cbn [Address.version Address.data] in *.
  unfold deserializeAddress, bind, ret.
  change ((byteOfN (Z.to_N v) :: h) ++ rest) with ([byteOfN (Z.to_N v)] ++ (h ++ rest)).
  rewrite readBuffer_app by reflexivity.
  rewrite readBuffer_app by (unfold byteLength; rewrite Hlen; reflexivity).
  rewrite hexStringToInt_byte, to_N_byteOfN, Z2N.id by lia.
  now rewrite Hhex.
Qed.

(** *** LengthPrefixedString *)

Lemma serializeLPString_eq (lps : LengthPrefixedString.t) :
  serializeLPString lps
  = Buffer_from_hex
      (intToHexString (byteLength (Buffer_from (LengthPrefixedString.content lps)))
         (LengthPrefixedString.lengthPrefixBytes lps))
    ++ Buffer_from (LengthPrefixedString.content lps).
Proof.
  unfold serializeLPString, appendHexString, push, concatBuffer, BufferArray_new.
  cbn. now rewrite app_nil_r.
Qed.

Lemma byteLength_nonneg (b : Buffer) : 0 <= byteLength b.
Proof. unfold byteLength. lia. Qed.

(** What the decoder returns on the encoding of a decodable string: the
    content, the default bound, and as prefix width the value that the
    call [lengthPrefixedString(content, length)] gives it. *)
Lemma deserializeLPString_serializeLPString
    (lps : LengthPrefixedString.t) (rest : Buffer) :
  decodableString lps ->
  deserializeLPString (serializeLPString lps ++ rest)
  = Ok ({| LengthPrefixedString.content := LengthPrefixedString.content lps;
           LengthPrefixedString.lengthPrefixBytes :=
             orDefault
               (Some (byteLength (Buffer_from (LengthPrefixedString.content lps)))) 1;
           LengthPrefixedString.maxLengthBytes := MAX_STRING_LENGTH_BYTES |},
        rest).
Proof.
  intros [Hp [H255 Hmax]]. rewrite serializeLPString_eq, Hp.
  pose proof (byteLength_nonneg (Buffer_from (LengthPrefixedString.content lps))) as H0.
  set (n := byteLength (Buffer_from (LengthPrefixedString.content lps))) in *.
  rewrite intToHexString_small by lia.
  unfold deserializeLPString. cbn [app].
  rewrite (bind_Ok _ _ _ _ _ (readUInt8_cons _ _)).
  rewrite to_N_byteOfN, Z2N.id by lia.
  rewrite (bind_Ok _ _ _ _ _
             (readBuffer_app n (Buffer_from (LengthPrefixedString.content lps))
                rest eq_refl)).
  unfold lift, lengthPrefixedString, exceedsMaxLengthBytes.
  rewrite toString_from. fold n. cbn [orDefault].
  replace (n >? MAX_STRING_LENGTH_BYTES) with false; [reflexivity|].
  symmetry. rewrite Z.gtb_ltb. apply Z.ltb_ge. exact Hmax.
Qed.

(** The decoded string is the encoded one exactly when the encoded one
    carries the default bound and a content of at most one byte. *)
Lemma deserializeLPString_exact (lps : LengthPrefixedString.t) (rest : Buffer) :
  decodableString lps ->
  (deserializeLPString (serializeLPString lps ++ rest) = Ok (lps, rest)
   <-> byteLength (Buffer_from (LengthPrefixedString.content lps)) <= 1
       /\ LengthPrefixedString.maxLengthBytes lps = MAX_STRING_LENGTH_BYTES).
Proof.
  intros Hd. rewrite deserializeLPString_serializeLPString by exact Hd.
  destruct Hd as [Hp _].
  pose proof (byteLength_nonneg (Buffer_from (LengthPrefixedString.content lps))) as H0.
  destruct lps as [c p m]. cbn [LengthPrefixedString.content
    LengthPrefixedString.lengthPrefixBytes LengthPrefixedString.maxLengthBytes] in *.
  subst p. unfold orDefault.
  destruct (Z.eqb_spec (byteLength (Buffer_from c)) 0) as [E|E]; split.
  - intros H. injection H as <-. split; [lia|reflexivity].
  - intros [_ ->]. reflexivity.
  - intros H. injection H as H1 <-. split; [lia|reflexivity].
  - intros [H1 ->]. replace (byteLength (Buffer_from c)) with 1 by lia. reflexivity.
Qed.

(** *** MemoString *)

Lemma serializeMemoString_eq (m : MemoString.t) :
  memoFits m ->
  serializeMemoString m
  = Buffer_from (MemoString.content m) ++ repeat x00 (memoPadding m).
Proof.
  unfold memoFits, memoPadding. intros H.
  unfold serializeMemoString, push, concatBuffer, BufferArray_new,
    rightPadHexToLength, padEnd.
  cbn [app List.concat]. rewrite app_nil_r.
  rewrite length_toString_hex.
  unfold byteLength in *.
  replace (Z.to_nat (MEMO_MAX_LENGTH_BYTES * 2)
           - 2 * List.length (Buffer_from (MemoString.content m)))%nat
    with (2 * Z.to_nat (MEMO_MAX_LENGTH_BYTES
                        - Z.of_nat (List.length (Buffer_from (MemoString.content m)))))%nat
    by lia.
  now rewrite Buffer_from_hex_toString_hex_app, Buffer_from_hex_zeros.
Qed.

Lemma length_serializeMemoString (m : MemoString.t) :
  memoFits m -> byteLength (serializeMemoString m) = MEMO_MAX_LENGTH_BYTES.
Proof.
  intros H. rewrite serializeMemoString_eq by exact H.
  unfold memoFits, memoPadding, byteLength in *.
  rewrite length_app, repeat_length. lia.
Qed.

Lemma deserializeMemoString_serializeMemoString (m : MemoString.t) (rest : Buffer) :
  memoFits m ->
  deserializeMemoString (serializeMemoString m ++ rest)
  = Ok ({| MemoString.content :=
             (MemoString.content m ++ nulString (memoPadding m))%string |},
        rest).
Proof.
  intros H. unfold deserializeMemoString, bind, ret.
  rewrite readBuffer_app by (symmetry; now apply length_serializeMemoString).
  rewrite serializeMemoString_eq by exact H.
  now rewrite toString_app, toString_from, toString_repeat_x00.
Qed.

(** *** Principal *)

(** The two principal kinds have different tag bytes. *)
Hypothesis PrincipalType_value_distinct :
  PrincipalType_value PrincipalType.Standard
  <> PrincipalType_value PrincipalType.Contract.

Lemma Byte_eqb_refl (b : byte) : Byte.eqb b b = true.
Proof. now apply Byte.byte_dec_lb. Qed.

Lemma readPrincipalType (t : PrincipalType.t) (rest : Buffer) :
  readUInt8Enum PrincipalType_value PrincipalType.members
    (fun n => UnexpectedPrincipalPayloadType) (PrincipalType_value t :: rest)
  = Ok (t, rest).
Proof.
  unfold readUInt8Enum, bind, readByte, PrincipalType.members. cbn [find].
  destruct t.
  - now rewrite Byte_eqb_refl.
  - destruct (Byte.eqb (PrincipalType_value PrincipalType.Standard)
                (PrincipalType_value PrincipalType.Contract)) eqn:E.
    + apply Byte.byte_dec_bl in E. now apply PrincipalType_value_distinct in E.
    + now rewrite Byte_eqb_refl.
Qed.

Lemma serializePrincipal_eq (p : Principal) :
  serializePrincipal p
  = PrincipalType_value (Principal_type p)
    :: serializeAddress (Principal_address p)
       ++ match p with
          | StandardPrincipal _ => []
          | ContractPrincipal _ contractName => serializeLPString contractName
          end.
Proof.
  unfold serializePrincipal, push, concatBuffer, BufferArray_new.
  destruct p; cbn; now rewrite ?app_nil_r.
Qed.

Lemma deserializePrincipal_standard (a : Address.t) (rest : Buffer) :
  validAddress a ->
  deserializePrincipal (serializePrincipal (StandardPrincipal a) ++ rest)
  = Ok (StandardPrincipal a, rest).
Proof.
  intros Ha. rewrite serializePrincipal_eq. cbn [Principal_type Principal_address].
  rewrite app_nil_r. unfold deserializePrincipal. cbn [app].
  rewrite (bind_Ok _ _ _ _ _ (readPrincipalType _ _)).
  now rewrite (bind_Ok _ _ _ _ _ (deserializeAddress_serializeAddress a rest Ha)).
Qed.

Lemma deserializePrincipal_contract
    (a : Address.t) (name : LengthPrefixedString.t) (rest : Buffer) :
  validAddress a -> decodableString name ->
  deserializePrincipal (serializePrincipal (ContractPrincipal a name) ++ rest)
  = match deserializeLPString (serializeLPString name ++ rest) with
    | Ok (name', rest') => Ok (ContractPrincipal a name', rest')
    | Throw e => Throw e
    end.
Proof.
  intros Ha Hn. rewrite serializePrincipal_eq. cbn [Principal_type Principal_address].
  unfold deserializePrincipal. cbn [app].
  rewrite (bind_Ok _ _ _ _ _ (readPrincipalType _ _)).
  rewrite <- app_assoc.
  rewrite (bind_Ok _ _ _ _ _ (deserializeAddress_serializeAddress a _ Ha)).
  unfold bind, ret.
  now destruct (deserializeLPString (serializeLPString name ++ rest)) as [[? ?]|].
Qed.

(** *** AssetInfo *)

Lemma serializeAssetInfo_eq (i : AssetInfo.t) :
  serializeAssetInfo i
  = serializeAddress (AssetInfo.address i)
    ++ serializeLPString (AssetInfo.contractName i)
    ++ serializeLPString (AssetInfo.assetName i).
Proof.
  unfold serializeAssetInfo, push, concatBuffer, BufferArray_new.
  cbn [app List.concat]. now rewrite app_nil_r.
Qed.

Lemma deserializeAssetInfo_serializeAssetInfo (i : AssetInfo.t) (rest : Buffer) :
  validAddress (AssetInfo.address i) ->
  decodableString (AssetInfo.contractName i) ->
  decodableString (AssetInfo.assetName i) ->
  exists contractName assetName,
    deserializeAssetInfo (serializeAssetInfo i ++ rest)
    = Ok ({| AssetInfo.address := AssetInfo.address i;
             AssetInfo.contractName := contractName;
             AssetInfo.assetName := assetName |}, rest)
    /\ LengthPrefixedString.content contractName
       = LengthPrefixedString.content (AssetInfo.contractName i)
    /\ LengthPrefixedString.content assetName
       = LengthPrefixedString.content (AssetInfo.assetName i)
    /\ LengthPrefixedString.maxLengthBytes contractName = MAX_STRING_LENGTH_BYTES
    /\ LengthPrefixedString.maxLengthBytes assetName = MAX_STRING_LENGTH_BYTES.
Proof.
  intros Ha Hc Hn. rewrite serializeAssetInfo_eq, <- !app_assoc.
  unfold deserializeAssetInfo.
  rewrite (bind_Ok _ _ _ _ _ (deserializeAddress_serializeAddress _ _ Ha)).
  rewrite (bind_Ok _ _ _ _ _ (deserializeLPString_serializeLPString _ _ Hc)).
  rewrite (bind_Ok _ _ _ _ _ (deserializeLPString_serializeLPString _ _ Hn)).
  eexists _, _. repeat split; reflexivity.
Qed.

Lemma append_eq_self (s t : string) : (s ++ t)%string = s -> t = EmptyString.
Proof.
  induction s as [|c s IH]; cbn [String.append]; intros H; [exact H|].
  injection H as H. now apply IH.
Qed.

(** The decoded memo is the encoded one exactly when nothing was padded. *)
Lemma deserializeMemoString_exact (m : MemoString.t) (rest : Buffer) :
  memoFits m ->
  (deserializeMemoString (serializeMemoString m ++ rest) = Ok (m, rest)
   <-> byteLength (Buffer_from (MemoString.content m)) = MEMO_MAX_LENGTH_BYTES).
Proof.
  intros Hfit. rewrite deserializeMemoString_serializeMemoString by exact Hfit.
  unfold memoFits, memoPadding in *. destruct m as [c]. cbn [MemoString.content] in *.
  split.
  - intros H. injection H as H. apply append_eq_self in H.
    destruct (Z.to_nat (MEMO_MAX_LENGTH_BYTES - byteLength (Buffer_from c))) eqn:E;
      [lia|discriminate].
  - intros H. rewrite H, Z.sub_diag. cbn [Z.to_nat]. unfold nulString.
    cbn [repeatChar]. now rewrite append_empty_r.
Qed.

(** *** The dispatcher *)

Ltac number_cases :=
  repeat match goal with
         | |- context [?a =? ?b] => destruct (Z.eqb_spec a b); try lia
         end.

Ltac not_principal H :=
  pose proof (H PrincipalType.Standard);
  pose proof (H PrincipalType.Contract);
  cbn [StacksMessageType.value] in *.

Ltac tags_apart H :=
  pose proof (H StacksMessageType.Address PrincipalType.Standard);
  pose proof (H StacksMessageType.LengthPrefixedString PrincipalType.Standard);
  pose proof (H StacksMessageType.MemoString PrincipalType.Standard);
  pose proof (H StacksMessageType.AssetInfo PrincipalType.Standard);
  pose proof (H StacksMessageType.Address PrincipalType.Contract);
  pose proof (H StacksMessageType.LengthPrefixedString PrincipalType.Contract);
  pose proof (H StacksMessageType.MemoString PrincipalType.Contract);
  pose proof (H StacksMessageType.AssetInfo PrincipalType.Contract);
  cbn [StacksMessageType.value] in *.

(** An address has the number of the first label, whatever the numbers of
    [PrincipalType]. *)
Lemma serializeStacksMessage_address (a : Address.t) :
  serializeStacksMessage (MsgAddress a) = Ok (Some (serializeAddress a)).
Proof. reflexivity. Qed.

(** An object that has a [type] is given to one of the serializers: only
    the objects without one leave the switch by no case. *)
Lemma serializeStacksMessage_returns (message : StacksMessage) :
  StacksMessage_type message <> None ->
  serializeStacksMessage message <> Ok None.
Proof.
  intros Htype. unfold serializeStacksMessage.
  destruct message as [a|p|s|m|i|o]; cbn [StacksMessage_type] in *;
    [| | | | |now elim Htype];
    unfold serializerCase; cbn [MessageTypeTag_number StacksMessageType.value];
    try destruct p; cbn [Principal_type];
    number_cases; discriminate.
Qed.

(** A string, a memo and an asset identifier go to the serializer of
    their kind when their number is the number of no kind of principal; a
    principal goes to the serializer of principals when its number is not
    that of [Address], the first label. *)
Lemma serializeStacksMessage_string (s : LengthPrefixedString.t) :
  notPrincipalNumber StacksMessageType.LengthPrefixedString ->
  serializeStacksMessage (MsgLengthPrefixedString s) = Ok (Some (serializeLPString s)).
Proof.
  intros H. not_principal H. unfold serializeStacksMessage, serializerCase.
  cbn [StacksMessage_type MessageTypeTag_number StacksMessageType.value].
  number_cases; reflexivity.
Qed.


Lemma serializeStacksMessage_assetInfo (i : AssetInfo.t) :
  notPrincipalNumber StacksMessageType.AssetInfo ->
  serializeStacksMessage (MsgAssetInfo i) = Ok (Some (serializeAssetInfo i)).
Proof.
  intros H. not_principal H. unfold serializeStacksMessage, serializerCase.
  cbn [StacksMessage_type MessageTypeTag_number StacksMessageType.value].
  number_cases; reflexivity.
Qed.



(** When the tags are apart the loop body is entered at the case of the
    kind asked for. *)
Lemma listSwitch_apart (type : MessageTypeTag) (l : list StacksMessage) :
  tagsApart ->
  listSwitch type l
  = match type with
    | OfStacksMessageType StacksMessageType.Address => fromAddressCase l
    | OfStacksMessageType StacksMessageType.LengthPrefixedString =>
        fromLengthPrefixedStringCase l
    | OfStacksMessageType StacksMessageType.MemoString => fromMemoStringCase l
    | OfStacksMessageType StacksMessageType.AssetInfo => fromAssetInfoCase l
    | OfPrincipalType _ => fromPrincipalCase l
    end.
Proof.
  intros H. tags_apart H. unfold listSwitch.
  destruct type as [[| | |]|[|]];
    cbn [MessageTypeTag_number StacksMessageType.value];
    number_cases; cbn [orb]; try reflexivity.
Qed.

(** *** Round trips *)

(** C1 (as amended).  Decoding the encoding of a well-formed address or
    standard principal gives the value back, field by field, and consumes
    the whole buffer.  For a length-prefixed string with a one-byte prefix
    whose content fits the default bound, and for a contract principal or
    an asset identifier made of such strings, decoding succeeds and gives
    back the address and the content of every string, each decoded string
    carrying the default bound.  For a memo that fits the fixed width,
    decoding gives the content followed by one NUL character per padding
    byte, hence the memo itself exactly when its content fills the
    width. *)
Theorem roundtrip_by_kind :
  (forall a, validAddress a ->
     decode deserializeAddress (serializeAddress a) = Ok (a, []))
  /\ (forall a, validAddress a ->
        decode deserializePrincipal (serializePrincipal (StandardPrincipal a))
        = Ok (StandardPrincipal a, []))
  /\ (forall s, decodableString s ->
        exists s',
          decode deserializeLPString (serializeLPString s) = Ok (s', [])
          /\ LengthPrefixedString.content s' = LengthPrefixedString.content s
          /\ LengthPrefixedString.maxLengthBytes s' = MAX_STRING_LENGTH_BYTES)
  /\ (forall a name, validAddress a -> decodableString name ->
        exists name',
          decode deserializePrincipal (serializePrincipal (ContractPrincipal a name))
          = Ok (ContractPrincipal a name', [])
          /\ LengthPrefixedString.content name' = LengthPrefixedString.content name
          /\ LengthPrefixedString.maxLengthBytes name' = MAX_STRING_LENGTH_BYTES)
  /\ (forall i,
        validAddress (AssetInfo.address i) ->
        decodableString (AssetInfo.contractName i) ->
        decodableString (AssetInfo.assetName i) ->
        exists contractName assetName,
          decode deserializeAssetInfo (serializeAssetInfo i)
          = Ok ({| AssetInfo.address := AssetInfo.address i;
                   AssetInfo.contractName := contractName;
                   AssetInfo.assetName := assetName |}, [])
          /\ LengthPrefixedString.content contractName
             = LengthPrefixedString.content (AssetInfo.contractName i)
          /\ LengthPrefixedString.content assetName
             = LengthPrefixedString.content (AssetInfo.assetName i)
          /\ LengthPrefixedString.maxLengthBytes contractName
             = MAX_STRING_LENGTH_BYTES
          /\ LengthPrefixedString.maxLengthBytes assetName
             = MAX_STRING_LENGTH_BYTES)
  /\ (forall m, memoFits m ->
        decode deserializeMemoString (serializeMemoString m)
        = Ok ({| MemoString.content :=
                   (MemoString.content m ++ nulString (memoPadding m))%string |}, [])
        /\ (decode deserializeMemoString (serializeMemoString m) = Ok (m, [])
            <-> byteLength (Buffer_from (MemoString.content m))
                = MEMO_MAX_LENGTH_BYTES)).
Proof.
  unfold decode.
  split; [|split; [|split; [|split; [|split]]]].
  - intros a Ha.
    rewrite <- (app_nil_r (serializeAddress a)).
    now apply deserializeAddress_serializeAddress.
  - intros a Ha.
    rewrite <- (app_nil_r (serializePrincipal _)).
    now apply deserializePrincipal_standard.
  - intros s Hs.
    rewrite <- (app_nil_r (serializeLPString s)).
    rewrite deserializeLPString_serializeLPString by exact Hs.
    eexists. split; [reflexivity|]. split; reflexivity.
  - intros a name Ha Hn.
    rewrite <- (app_nil_r (serializePrincipal _)).
    rewrite deserializePrincipal_contract by assumption.
    rewrite deserializeLPString_serializeLPString by exact Hn.
    eexists. split; [reflexivity|]. split; reflexivity.
  - intros i Ha Hc Hn.
    rewrite <- (app_nil_r (serializeAssetInfo i)).
    now apply deserializeAssetInfo_serializeAssetInfo.
  - intros m Hm.
    rewrite <- (app_nil_r (serializeMemoString m)).
    split.
    + now apply deserializeMemoString_serializeMemoString.
    + now apply deserializeMemoString_exact.
Qed.

(** *** Length-prefixed lists *)

Lemma listSwitch_length (type : MessageTypeTag) (l l' : list StacksMessage)
    (input rest : Buffer) :
  tagsApart ->
  listSwitch type l input = Ok (l', rest) ->
  List.length l' = (List.length l + pushedPerIteration type)%nat.
Proof.
  intros Hapart. rewrite (listSwitch_apart type l Hapart).
  unfold fromAddressCase, fromLengthPrefixedStringCase,
    fromMemoStringCase, fromAssetInfoCase, fromPrincipalCase, bind, ret.
  destruct type as [[| | |]|[|]]; cbn [pushedPerIteration];
    repeat match goal with
           | |- match ?m ?i with _ => _ end = _ -> _ =>
               destruct (m i) as [[? ?]|]; [|discriminate]
           end;
    intros H; injection H as <- _; rewrite ?length_app; cbn [List.length]; lia.
Qed.

Lemma listLoop_length (iterations : nat) (type : MessageTypeTag) :
  tagsApart ->
  forall (l l' : list StacksMessage) (input rest : Buffer),
    listLoop iterations type l input = Ok (l', rest) ->
    List.length l'
    = (List.length l + iterations * pushedPerIteration type)%nat.
Proof.
  intros Hapart.
  induction iterations as [|k IH]; intros l l' input rest H.
  - cbn in H. injection H as <- _. lia.
  - cbn [listLoop] in H. unfold bind in H.
    destruct (listSwitch type l input) as [[l1 rest1]|] eqn:E; [|discriminate].
    apply listSwitch_length in E; [|exact Hapart]. apply IH in H. lia.
Qed.

(** Whenever [deserializeLengthPrefixedList] returns, the tags being
    apart, the list holds the count read from the wire times the number of
    values an iteration pushes: five per counted element for addresses, one
    for principals. *)
Lemma deserializeLengthPrefixedList_length (lengthPrefixBytes : Z)
    (type : MessageTypeTag) (input rest : Buffer) (r : LengthPrefixedList.t) :
  tagsApart ->
  deserializeLengthPrefixedList lengthPrefixBytes type input = Ok (r, rest) ->
  exists countBytes rest0,
    readBuffer lengthPrefixBytes input = Ok (countBytes, rest0)
    /\ List.length (LengthPrefixedList.values r)
       = (Z.to_nat (hexStringToInt (Buffer_toString_hex countBytes))
          * pushedPerIteration type)%nat.
Proof.
  intros Hapart. unfold deserializeLengthPrefixedList, bind, ret.
  destruct (readBuffer lengthPrefixBytes input) as [[countBytes rest0]|];
    [|discriminate].
  destruct (listLoop _ type [] rest0) as [[l rest1]|] eqn:E; [|discriminate].
  intros H. injection H as <- _.
  exists countBytes, rest0. split; [reflexivity|].
  apply listLoop_length in E; [|exact Hapart].
  cbn [LengthPrefixedList.values lengthPrefixedList].
  cbn [List.length] in E. lia.
Qed.

(** *** Payload constructors *)

(** The [codeBody] argument of [smartContractPayload] does not reach the
    payload. *)
Lemma smartContractPayload_ignores_codeBody (contractName codeBody codeBody' : string) :
  smartContractPayload contractName codeBody
  = smartContractPayload contractName codeBody'.
Proof. reflexivity. Qed.

Lemma smartContractPayload_codeBody (contractName codeBody : string)
    (name body : LengthPrefixedString.t) :
  smartContractPayload contractName codeBody = Ok (SmartContractPayload name body) ->
  LengthPrefixedString.content body = contractName
  /\ LengthPrefixedString.lengthPrefixBytes body = 4
  /\ LengthPrefixedString.maxLengthBytes body = 100000.
Proof.
  unfold smartContractPayload, codeBodyString, lengthPrefixedString, bindResult.
  destruct (exceedsMaxLengthBytes contractName (orDefault None _)); [discriminate|].
  destruct (exceedsMaxLengthBytes contractName (orDefault (Some 100000) _));
    [discriminate|].
  intros H. injection H as _ <-. now repeat split.
Qed.

(** *** Bounds of strings and memos *)

Lemma Buffer_from_empty (content : string) :
  String.eqb content EmptyString = true <-> byteLength (Buffer_from content) = 0.
Proof.
  destruct content as [|c content].
  - split; reflexivity.
  - split; [discriminate|].
    unfold byteLength, Buffer_from, list_byte_of_string. cbn. lia.
Qed.

(** C5 (as amended).  With a bound of at least one byte, the constructor
    of length-prefixed strings fails, with the string-too-long error,
    exactly when the encoded content is strictly longer than the bound; a
    content of exactly the bound, or shorter, is accepted and stored with
    the prefix width and the bound given. *)
Theorem lengthPrefixedString_bound
    (content : string) (lengthPrefixBytes : option Z) (maxLengthBytes : Z) :
  1 <= maxLengthBytes ->
  (byteLength (Buffer_from content) > maxLengthBytes ->
   lengthPrefixedString content lengthPrefixBytes (Some maxLengthBytes)
   = Throw (StringLengthExceedsMaximum maxLengthBytes))
  /\ (byteLength (Buffer_from content) <= maxLengthBytes ->
      lengthPrefixedString content lengthPrefixBytes (Some maxLengthBytes)
      = Ok {| LengthPrefixedString.content := content;
              LengthPrefixedString.lengthPrefixBytes :=
                orDefault lengthPrefixBytes 1;
              LengthPrefixedString.maxLengthBytes := maxLengthBytes |}).
Proof.
  intros Hmax. unfold lengthPrefixedString, exceedsMaxLengthBytes.
  assert (E : orDefault (Some maxLengthBytes) MAX_STRING_LENGTH_BYTES = maxLengthBytes).
  { unfold orDefault. destruct (Z.eqb_spec maxLengthBytes 0); [lia|reflexivity]. }
  rewrite E. split; intros H.
  - replace (byteLength (Buffer_from content) >? maxLengthBytes) with true;
      [reflexivity|].
    symmetry. rewrite Z.gtb_ltb. apply Z.ltb_lt. lia.
  - replace (byteLength (Buffer_from content) >? maxLengthBytes) with false;
      [reflexivity|].
    symmetry. rewrite Z.gtb_ltb. apply Z.ltb_ge. lia.
Qed.

(** C6.  A memo whose content is exactly [MEMO_MAX_LENGTH_BYTES] bytes
    long is accepted, and its serialization is the content itself, of
    exactly that many bytes; any accepted memo serializes to its content
    followed by zero bytes up to that width; a content one byte over the
    bound is rejected. *)
Theorem memoString_boundary (content : string) :
  (byteLength (Buffer_from content) = MEMO_MAX_LENGTH_BYTES ->
   memoString content = Ok {| MemoString.content := content |}
   /\ serializeMemoString {| MemoString.content := content |} = Buffer_from content
   /\ byteLength (serializeMemoString {| MemoString.content := content |})
      = MEMO_MAX_LENGTH_BYTES)
  /\ (byteLength (Buffer_from content) <= MEMO_MAX_LENGTH_BYTES ->
      memoString content = Ok {| MemoString.content := content |}
      /\ serializeMemoString {| MemoString.content := content |}
         = Buffer_from content
           ++ repeat x00
                (Z.to_nat (MEMO_MAX_LENGTH_BYTES - byteLength (Buffer_from content)))
      /\ byteLength (serializeMemoString {| MemoString.content := content |})
         = MEMO_MAX_LENGTH_BYTES)
  /\ (0 <= MEMO_MAX_LENGTH_BYTES ->
      byteLength (Buffer_from content) = MEMO_MAX_LENGTH_BYTES + 1 ->
      memoString content = Throw (MemoExceedsMaximumLength MEMO_MAX_LENGTH_BYTES)).
Proof.
  assert (Haccept : byteLength (Buffer_from content) <= MEMO_MAX_LENGTH_BYTES ->
                    memoString content = Ok {| MemoString.content := content |}).
  { intros H. unfold memoString, exceedsMaxLengthBytes.
    replace (byteLength (Buffer_from content) >? MEMO_MAX_LENGTH_BYTES) with false;
      [now rewrite andb_false_r|].
    symmetry. rewrite Z.gtb_ltb. apply Z.ltb_ge. lia. }
  split; [|split].
  - intros H. split; [apply Haccept; lia|].
    assert (Hfit : memoFits {| MemoString.content := content |})
      by (unfold memoFits; cbn [MemoString.content]; lia).
    split; [|now apply length_serializeMemoString].
    rewrite serializeMemoString_eq by exact Hfit.
    unfold memoPadding. cbn [MemoString.content].
    rewrite H, Z.sub_diag. cbn [Z.to_nat repeat]. apply app_nil_r.
  - intros H. split; [now apply Haccept|]. split.
    + now rewrite serializeMemoString_eq by exact H.
    + now apply length_serializeMemoString.
  - intros H0 H. unfold memoString, exceedsMaxLengthBytes.
    replace (byteLength (Buffer_from content) >? MEMO_MAX_LENGTH_BYTES) with true.
    2:{ symmetry. rewrite Z.gtb_ltb. apply Z.ltb_lt. lia. }
    destruct (String.eqb content EmptyString) eqn:E; [|reflexivity].
    apply Buffer_from_empty in E. lia.
Qed.

(** *** Payloads on the wire *)







(** C7.  The coinbase constructor fails, with the buffer-size error,
    exactly when the buffer is not [COINBASE_BUFFER_LENGTH_BYTES] bytes
    long; the payload it builds otherwise serializes to the tag byte of
    the coinbase kind followed by the bytes of the buffer, unchanged. *)
Theorem coinbasePayload_wire (coinbaseBuffer : Buffer) :
  (coinbasePayload coinbaseBuffer
     = Throw (CoinbaseBufferSize COINBASE_BUFFER_LENGTH_BYTES)
   <-> byteLength coinbaseBuffer <> COINBASE_BUFFER_LENGTH_BYTES)
  /\ (coinbasePayload coinbaseBuffer = Ok (CoinbasePayload coinbaseBuffer)
      <-> byteLength coinbaseBuffer = COINBASE_BUFFER_LENGTH_BYTES)
  /\ (forall payload,
        coinbasePayload coinbaseBuffer = Ok payload ->
        serializePayload payload
        = Ok (PayloadType_value PayloadType.Coinbase :: coinbaseBuffer)
        /\ byteLength coinbaseBuffer = COINBASE_BUFFER_LENGTH_BYTES).
Proof.
  unfold coinbasePayload.
  destruct (Z.eqb_spec (byteLength coinbaseBuffer) COINBASE_BUFFER_LENGTH_BYTES)
    as [E|E]; cbn [negb].
  - split; [|split].
    + split; [discriminate|intros H; now elim H].
    + split; [intros _; exact E|reflexivity].
    + intros payload H. injection H as <-. split; [|exact E].
      unfold serializePayload, pushReturned.
      cbn [payloadType app bindResult concatReturned]. now rewrite app_nil_r.
  - split; [|split].
    + split; [intros _; exact E|reflexivity].
    + split; [discriminate|intros H; now elim E].
    + intros payload H. discriminate.
Qed.

(** C9 (as amended).  Serializing a poison-microblock payload does not
    fail: it returns a buffer, and that buffer is the tag byte of the kind
    with nothing after it. *)
Theorem serializePayload_poison :
  serializePayload poisonPayload
  = Ok [PayloadType_value PayloadType.PoisonMicroblock]
  /\ (forall e, serializePayload poisonPayload <> Throw e)
  /\ (forall buffer,
        serializePayload poisonPayload = Ok buffer ->
        buffer = [PayloadType_value (payloadType poisonPayload)]
        /\ List.length buffer = 1%nat).
Proof.
  assert (E : serializePayload poisonPayload
              = Ok [PayloadType_value PayloadType.PoisonMicroblock]) by reflexivity.
  split; [exact E|]. split.
  - intros e. rewrite E. discriminate.
  - intros buffer. rewrite E. intros H. injection H as <-. split; reflexivity.
Qed.

(** *** Addresses from public keys *)

Lemma forallb_compressed (publicKeys : list StacksPublicKey) :
  forallb compressed publicKeys = true
  <-> (forall key, In key publicKeys -> compressed key = true).
Proof. apply forallb_forall. Qed.

(** C8.  [fromPublicKeys] fails on an empty list of keys; under a
    single-signature mode (P2PKH, P2WPKH) it fails unless there is exactly
    one key and one required signature; under a witness mode (P2WPKH,
    P2WSH) it fails unless every key is compressed; when these checks
    pass it returns the address of the hash of the key for P2PKH, and
    fails with the invalid-hash-mode error for every other mode; and it
    never succeeds otherwise. *)
Theorem fromPublicKeys_validation
    (version : Z) (hashMode : AddressHashMode.t) (numSigs : Z)
    (publicKeys : list StacksPublicKey) :
  (publicKeys = [] ->
   fromPublicKeys version hashMode numSigs publicKeys
   = Throw InvalidNumberOfPublicKeys)
  /\ (isSingleSigMode hashMode = true ->
      List.length publicKeys <> 1%nat \/ numSigs <> 1 ->
      exists e,
        fromPublicKeys version hashMode numSigs publicKeys = Throw e
        /\ (publicKeys <> [] -> e = InvalidNumberOfKeysOrSignatures))
  /\ (isWitnessMode hashMode = true ->
      (exists key, In key publicKeys /\ compressed key = false) ->
      exists e,
        fromPublicKeys version hashMode numSigs publicKeys = Throw e
        /\ ((isSingleSigMode hashMode = true ->
             List.length publicKeys = 1%nat /\ numSigs = 1) ->
            e = PublicKeysMustBeCompressed))
  /\ (validationsPass hashMode numSigs publicKeys ->
      hashMode = AddressHashMode.SerializeP2PKH ->
      exists key,
        publicKeys = [key]
        /\ fromPublicKeys version hashMode numSigs publicKeys
           = Ok (addressFromData version (hash_p2pkh (publicKey_toString key))))
  /\ (validationsPass hashMode numSigs publicKeys ->
      hashMode <> AddressHashMode.SerializeP2PKH ->
      fromPublicKeys version hashMode numSigs publicKeys
      = Throw InvalidAddressHashMode)
  /\ (forall a,
        fromPublicKeys version hashMode numSigs publicKeys = Ok a ->
        validationsPass hashMode numSigs publicKeys
        /\ hashMode = AddressHashMode.SerializeP2PKH).
Proof.
  split; [|split; [|split; [|split; [|split]]]].
  - intros ->. reflexivity.
  - intros Hs Hbad. unfold fromPublicKeys.
    destruct publicKeys as [|key rest].
    { eexists. split; [reflexivity|]. intros Hne. now elim Hne. }
    rewrite Hs. cbn [andb].
    replace (negb (Nat.eqb (List.length (key :: rest)) 1) || negb (numSigs =? 1))
      with true; [eexists; split; reflexivity|].
    symmetry. apply orb_true_iff.
    destruct Hbad as [Hl|Hn].
    + left. apply negb_true_iff, Nat.eqb_neq. exact Hl.
    + right. apply negb_true_iff, Z.eqb_neq. exact Hn.
  - intros Hw [key [Hin Hc]]. unfold fromPublicKeys.
    destruct publicKeys as [|key0 rest]; [now elim Hin|].
    destruct (isSingleSigMode hashMode
              && (negb (Nat.eqb (List.length (key0 :: rest)) 1) || negb (numSigs =? 1)))
      eqn:E1.
    { eexists. split; [reflexivity|]. intros Hs.
      apply andb_true_iff in E1. destruct E1 as [E1 E1'].
      destruct (Hs E1) as [Hl Hn]. rewrite Hl, Hn in E1'. discriminate. }
    rewrite Hw. cbn [andb].
    replace (forallb compressed (key0 :: rest)) with false;
      [eexists; split; reflexivity|].
    symmetry. apply not_true_is_false. intros Hall.
    rewrite forallb_compressed in Hall. specialize (Hall key Hin). congruence.
  - intros [Hne [Hs Hw]] ->.
    destruct (Hs eq_refl) as [Hlen ->].
    destruct publicKeys as [|key [|key' rest]]; try discriminate.
    exists key. split; reflexivity.
  - intros [Hne [Hs Hw]] Hmode. unfold fromPublicKeys.
    destruct publicKeys as [|key rest]; [now elim Hne|].
    replace (isSingleSigMode hashMode
             && (negb (Nat.eqb (List.length (key :: rest)) 1) || negb (numSigs =? 1)))
      with false.
    2:{ symmetry. destruct (isSingleSigMode hashMode); [|reflexivity].
        destruct (Hs eq_refl) as [-> ->]. reflexivity. }
    replace (isWitnessMode hashMode && negb (forallb compressed (key :: rest)))
      with false.
    2:{ symmetry. destruct (isWitnessMode hashMode); [|reflexivity].
        cbn [andb]. apply negb_false_iff, forallb_compressed. now apply Hw. }
    destruct hashMode; [now elim Hmode|reflexivity..].
  - intros a H. unfold fromPublicKeys in H.
    destruct publicKeys as [|key rest]; [discriminate|].
    destruct (isSingleSigMode hashMode
              && (negb (Nat.eqb (List.length (key :: rest)) 1) || negb (numSigs =? 1)))
      eqn:E1; [discriminate|].
    destruct (isWitnessMode hashMode && negb (forallb compressed (key :: rest)))
      eqn:E2; [discriminate|].
    destruct hashMode; try discriminate.
    split; [|reflexivity]. split; [discriminate|]. split.
    + intros _. cbn [isSingleSigMode andb] in E1.
      apply orb_false_iff in E1. destruct E1 as [El En].
      apply negb_false_iff in El, En.
      apply Nat.eqb_eq in El. apply Z.eqb_eq in En. now split.
    + discriminate.
Qed.

(** *** The asset identifier factory *)

(** C10.  Whatever the three strings, the object the [assetInfo] factory
    returns holds the decoded address and the two length-prefixed names
    and has no [type] property; given to [serializeStacksMessage] it
    matches no case and no buffer is returned, whereas the same fields
    tagged as an [AssetInfo] serialize to the wire form of an asset
    identifier (when 3, the number of [StacksMessageType.AssetInfo], is
    the number of no kind of principal, so that the tag selects the case
    of asset identifiers). *)
Theorem assetInfo_untagged
    (addressString contractName assetName : string) (o : AssetInfoFields.t) :
  assetInfo addressString contractName assetName = Ok o ->
  address addressString = Ok (AssetInfoFields.address o)
  /\ lengthPrefixedString contractName None None
     = Ok (AssetInfoFields.contractName o)
  /\ lengthPrefixedString assetName None None = Ok (AssetInfoFields.assetName o)
  /\ StacksMessage_type (MsgUntagged o) = None
  /\ serializeStacksMessage (MsgUntagged o) = Ok None
  /\ (notPrincipalNumber StacksMessageType.AssetInfo ->
      serializeStacksMessage
        (MsgAssetInfo {| AssetInfo.address := AssetInfoFields.address o;
                         AssetInfo.contractName := AssetInfoFields.contractName o;
                         AssetInfo.assetName := AssetInfoFields.assetName o |})
      = Ok (Some (serializeAddress (AssetInfoFields.address o)
                  ++ serializeLPString (AssetInfoFields.contractName o)
                  ++ serializeLPString (AssetInfoFields.assetName o)))).
Proof.
  unfold assetInfo, bindResult. intros H.
  destruct (address addressString) as [addr|]; [|discriminate].
  destruct (lengthPrefixedString contractName None None) as [c|]; [|discriminate].
  destruct (lengthPrefixedString assetName None None) as [n|]; [|discriminate].
  injection H as <-. cbn [AssetInfoFields.address AssetInfoFields.contractName
                          AssetInfoFields.assetName].
  do 5 (split; [reflexivity|]).
  intros Hapart. rewrite (serializeStacksMessage_assetInfo _ Hapart).
  now rewrite serializeAssetInfo_eq.
Qed.

(** ** Further properties *)

(** *** Integers on a given number of bytes *)

Lemma of_pos_small (p : positive) (rest : string) :
  (Npos p < 16)%N -> HexString.Raw.of_pos p rest = String (hexDigit (Npos p)) rest.
Proof.
  intros H. do 4 (destruct p as [p|p|]; try reflexivity); exfalso; lia.
Qed.

Ltac split_hex P q c :=
  assert (Hq : (N.pos P / 16 = N.pos q)%N)
    by (symmetry; apply (N.div_unique (N.pos P) 16 (N.pos q) c); lia);
  assert (Hm : (N.pos P mod 16 = c)%N)
    by (symmetry; apply (N.mod_unique (N.pos P) 16 (N.pos q) c); lia).

Lemma of_pos_large (p : positive) (rest : string) :
  (16 <= Npos p)%N ->
  exists q, (Npos p / 16 = Npos q)%N
    /\ HexString.Raw.of_pos p rest
       = HexString.Raw.of_pos q (String (hexDigit (Npos p mod 16)) rest).
Proof.
  intros H.
  destruct p as [[[[q|q|]|[q|q|]|]|[[q|q|]|[q|q|]|]|]|[[[q|q|]|[q|q|]|]|[[q|q|]|[q|q|]|]|]|];
    try (exfalso; lia).
  all: exists q.
  all: match goal with
       | |- (N.pos ?P / 16 = _)%N /\ _ =>
           first [ split_hex P q 0%N | split_hex P q 1%N | split_hex P q 2%N
                 | split_hex P q 3%N | split_hex P q 4%N | split_hex P q 5%N
                 | split_hex P q 6%N | split_hex P q 7%N | split_hex P q 8%N
                 | split_hex P q 9%N | split_hex P q 10%N | split_hex P q 11%N
                 | split_hex P q 12%N | split_hex P q 13%N | split_hex P q 14%N
                 | split_hex P q 15%N ]
       end.
  all: split; [exact Hq|rewrite Hm; reflexivity].
Qed.

Lemma repeatChar_snoc (c : ascii) (n : nat) (rest : string) :
  (repeatChar c n ++ String c rest)%string = (repeatChar c (S n) ++ rest)%string.
Proof.
  induction n as [|n IH]; [reflexivity|].
  cbn [repeatChar String.append] in *. now rewrite IH.
Qed.

Lemma hexNumeral_zero (digits : nat) (rest : string) :
  hexNumeral digits 0 rest = (repeatChar "0" digits ++ rest)%string.
Proof.
  revert rest. induction digits as [|d IH]; intros rest; [reflexivity|].
  cbn [hexNumeral]. change (0 / 16)%N with 0%N. change (0 mod 16)%N with 0%N.
  rewrite IH. cbn [hexDigit]. apply repeatChar_snoc.
Qed.

Lemma hexNumeral_of_pos (digits : nat) : forall (p : positive) (rest : string),
  (Npos p < 16 ^ N.of_nat digits)%N ->
  exists z,
    hexNumeral digits (Npos p) rest
    = (repeatChar "0" z ++ HexString.Raw.of_pos p rest)%string
    /\ (z + String.length (HexString.Raw.of_pos p rest)
        = digits + String.length rest)%nat.
Proof.
  induction digits as [|d IH]; intros p rest H.
  - cbn in H. lia.
  - cbn [hexNumeral].
    destruct (N.lt_ge_cases (Npos p) 16) as [Hs|Hl].
    + rewrite N.div_small, N.mod_small by exact Hs.
      rewrite hexNumeral_zero, of_pos_small by exact Hs.
      exists d. split; [reflexivity|]. cbn [String.length]. lia.
    + destruct (of_pos_large p rest Hl) as [q [Hq Hp]].
      rewrite Hq, Hp.
      destruct (IH q (String (hexDigit (N.pos p mod 16)) rest)) as [z [E L]].
      { rewrite <- Hq. apply N.Div0.div_lt_upper_bound.
        replace (16 * 16 ^ N.of_nat d)%N with (16 ^ N.of_nat (S d))%N; [exact H|].
        rewrite Nat2N.inj_succ, N.pow_succ_r'. reflexivity. }
      exists z. split; [exact E|]. cbn [String.length] in L. lia.
Qed.

Lemma padStart_of_pos (digits : nat) (targetLength : Z) (p : positive) :
  Z.to_nat targetLength = digits ->
  (Npos p < 16 ^ N.of_nat digits)%N ->
  padStart (HexString.Raw.of_pos p EmptyString) targetLength "0"
  = hexNumeral digits (Npos p) EmptyString.
Proof.
  intros Ht H. destruct (hexNumeral_of_pos digits p EmptyString H) as [z [E L]].
  rewrite E. unfold padStart. rewrite Ht. cbn [String.length] in L.
  replace (digits - String.length (HexString.Raw.of_pos p EmptyString))%nat with z by lia.
  reflexivity.
Qed.

Lemma ascii_to_digit_hexDigit (d : N) :
  (d < 16)%N -> HexString.ascii_to_digit (hexDigit d) = Some d.
Proof.
  intros H.
  destruct d as [|[[[[p|p|]|[p|p|]|]|[[p|p|]|[p|p|]|]|]|[[[p|p|]|[p|p|]|]|[[p|p|]|[p|p|]|]|]|]];
    try reflexivity; exfalso; lia.
Qed.

Lemma byteOfN_mod (n : N) : byteOfN (n mod 256) = byteOfN n.
Proof. unfold byteOfN. now rewrite N.Div0.mod_mod. Qed.

Lemma Buffer_from_hex_hexNumeral (k : nat) : forall (n : N) (rest : string),
  Buffer_from_hex (hexNumeral (2 * k) n rest) = bigEndian k n ++ Buffer_from_hex rest.
Proof.
  induction k as [|k IH]; intros n rest; [reflexivity|].
  replace (2 * S k)%nat with (S (S (2 * k))) by lia.
  cbn [hexNumeral bigEndian]. rewrite IH. cbn [Buffer_from_hex].
  rewrite !ascii_to_digit_hexDigit by (apply N.mod_lt; lia).
  rewrite N.Div0.div_div. change (16 * 16)%N with 256%N.
  rewrite <- app_assoc. cbn [app]. do 2 f_equal.
  rewrite <- (byteOfN_mod n). f_equal.
  change 256%N with (16 * 16)%N.
  rewrite (N.Div0.mod_mul_r n 16 16). lia.
Qed.

(** The general-width form of [intToHexString_small]. *)
Lemma intToHexString_bigEndian (n lengthBytes : Z) :
  0 <= n < 256 ^ Z.of_nat (Z.to_nat lengthBytes) ->
  Buffer_from_hex (intToHexString n lengthBytes)
  = bigEndian (Z.to_nat lengthBytes) (Z.to_N n).
Proof.
  intros H. unfold intToHexString.
  set (k := Z.to_nat lengthBytes) in *.
  assert (Hw : Z.to_nat (lengthBytes * 2) = (2 * k)%nat) by lia.
  destruct n as [|p|p]; [| |lia].
  - (* zero *)
    cbn [toString16 Z.to_N]. unfold padStart. rewrite Hw. cbn [String.length].
    destruct k as [|k]; [reflexivity|].
    replace (2 * S k - 1)%nat with (S (2 * k)) by lia.
    replace (repeatChar "0" (S (2 * k)) ++ "0")%string
      with (hexNumeral (2 * S k) 0 EmptyString).
    { rewrite Buffer_from_hex_hexNumeral. apply app_nil_r. }
    rewrite hexNumeral_zero.
    replace (2 * S k)%nat with (S (S (2 * k))) by lia.
    rewrite <- repeatChar_snoc. reflexivity.
  - cbn [toString16 Z.to_N].
    rewrite (padStart_of_pos (2 * k)).
    + rewrite Buffer_from_hex_hexNumeral. apply app_nil_r.
    + exact Hw.
    + assert (E : (16 ^ N.of_nat (2 * k) = 256 ^ N.of_nat k)%N).
      { rewrite Nat2N.inj_mul, N.pow_mul_r. reflexivity. }
      rewrite E.
      apply N2Z.inj_lt. rewrite N2Z.inj_pow. cbn [Z.of_N].
      rewrite nat_N_Z. lia.
Qed.

Lemma length_bigEndian (k : nat) (n : N) : List.length (bigEndian k n) = k.
Proof.
  revert n. induction k as [|k IH]; intros n; [reflexivity|].
  cbn [bigEndian]. rewrite length_app, IH. cbn. lia.
Qed.

Lemma parseHexDigits_toString_hex (b : Buffer) : forall acc : N,
  parseHexDigits (Buffer_toString_hex b) acc
  = fold_left (fun acc x => 256 * acc + Byte.to_N x)%N b acc.
Proof.
  induction b as [|x b IH]; intros acc; [reflexivity|].
  cbn [Buffer_toString_hex fold_left]. unfold hexOfByte.
  cbn [String.append parseHexDigits].
  pose proof (Byte.to_N_bounded x) as Hx.
  rewrite !ascii_to_digit_hexDigit.
  - rewrite IH. f_equal.
    rewrite (N.div_mod (Byte.to_N x) 16) at 3 by lia. lia.
  - apply N.mod_lt. lia.
  - apply N.Div0.div_lt_upper_bound. lia.
Qed.

Lemma fold_bigEndian (k : nat) : forall (n acc : N),
  fold_left (fun acc x => 256 * acc + Byte.to_N x)%N (bigEndian k n) acc
  = (acc * 256 ^ N.of_nat k + n mod 256 ^ N.of_nat k)%N.
Proof.
  induction k as [|k IH]; intros n acc.
  - cbn. rewrite N.mod_1_r. lia.
  - cbn [bigEndian]. rewrite fold_left_app, IH. cbn [fold_left].
    unfold byteOfN.
    destruct (Byte.of_N (n mod 256)) as [b|] eqn:E.
    2:{ apply Byte.of_N_None_iff in E. pose proof (N.mod_lt n 256). lia. }
    apply Byte.to_of_N in E. rewrite E.
    rewrite Nat2N.inj_succ, N.pow_succ_r'.
    rewrite (N.Div0.mod_mul_r n 256 (256 ^ N.of_nat k)). lia.
Qed.

Lemma hexStringToInt_bigEndian (k : nat) (n : Z) :
  0 <= n < 256 ^ Z.of_nat k ->
  hexStringToInt (Buffer_toString_hex (bigEndian k (Z.to_N n))) = n.
Proof.
  intros H. unfold hexStringToInt.
  rewrite parseHexDigits_toString_hex, fold_bigEndian.
  rewrite N.mod_small.
  - lia.
  - apply N2Z.inj_lt. rewrite N2Z.inj_pow, nat_N_Z. cbn [Z.of_N]. lia.
Qed.

Lemma bigEndian_cons (k : nat) : forall n : N,
  bigEndian (S k) n = byteOfN (n / 256 ^ N.of_nat k) :: bigEndian k n.
Proof.
  induction k as [|k IH]; intros n.
  - cbn [bigEndian app]. now rewrite N.pow_0_r, N.div_1_r.
  - change (bigEndian (S (S k)) n) with (bigEndian (S k) (n / 256) ++ [byteOfN n]).
    rewrite IH. cbn [app]. f_equal.
    rewrite N.Div0.div_div. f_equal. f_equal.
    rewrite Nat2N.inj_succ, N.pow_succ_r'. reflexivity.
Qed.

Lemma pow256_nat (k : nat) : Z.of_N (256 ^ N.of_nat k) = 256 ^ Z.of_nat k.
Proof. now rewrite N2Z.inj_pow, nat_N_Z. Qed.

Lemma readBuffer_zero (rest : Buffer) : readBuffer 0 rest = Ok ([], rest).
Proof. reflexivity. Qed.

(** *** Length-prefixed strings on any prefix width *)

Lemma serializeLPString_bigEndian (lps : LengthPrefixedString.t) :
  byteLength (Buffer_from (LengthPrefixedString.content lps))
  < 256 ^ Z.of_nat (Z.to_nat (LengthPrefixedString.lengthPrefixBytes lps)) ->
  serializeLPString lps
  = bigEndian (Z.to_nat (LengthPrefixedString.lengthPrefixBytes lps))
      (Z.to_N (byteLength (Buffer_from (LengthPrefixedString.content lps))))
    ++ Buffer_from (LengthPrefixedString.content lps).
Proof.
  intros H.
  pose proof (byteLength_nonneg (Buffer_from (LengthPrefixedString.content lps))) as H0.
  rewrite serializeLPString_eq.
  now rewrite intToHexString_bigEndian by lia.
Qed.

Lemma length_serializeLPString (lps : LengthPrefixedString.t) :
  byteLength (Buffer_from (LengthPrefixedString.content lps))
  < 256 ^ Z.of_nat (Z.to_nat (LengthPrefixedString.lengthPrefixBytes lps)) ->
  byteLength (serializeLPString lps)
  = Z.of_nat (Z.to_nat (LengthPrefixedString.lengthPrefixBytes lps))
    + byteLength (Buffer_from (LengthPrefixedString.content lps)).
Proof.
  intros H. rewrite serializeLPString_bigEndian by exact H.
  unfold byteLength. rewrite length_app, length_bigEndian. lia.
Qed.

Lemma codeBodyString_accepts (content : string) :
  byteLength (Buffer_from content) <= 100000 ->
  codeBodyString content
  = Ok {| LengthPrefixedString.content := content;
          LengthPrefixedString.lengthPrefixBytes := 4;
          LengthPrefixedString.maxLengthBytes := 100000 |}.
Proof.
  intros H. unfold codeBodyString, lengthPrefixedString, exceedsMaxLengthBytes.
  cbn [orDefault Z.eqb].
  destruct (Z.gtb_spec (byteLength (Buffer_from content)) 100000); [lia|reflexivity].
Qed.

Lemma serializeLPString_codeBody (content : string) :
  byteLength (Buffer_from content) <= 100000 ->
  serializeLPString {| LengthPrefixedString.content := content;
                       LengthPrefixedString.lengthPrefixBytes := 4;
                       LengthPrefixedString.maxLengthBytes := 100000 |}
  = bigEndian 4 (Z.to_N (byteLength (Buffer_from content))) ++ Buffer_from content.
Proof.
  intros H. rewrite serializeLPString_bigEndian; [reflexivity|].
  cbn [LengthPrefixedString.content LengthPrefixedString.lengthPrefixBytes].
  change (256 ^ Z.of_nat (Z.to_nat 4)) with 4294967296. lia.
Qed.

(** X1.  When the byte length of the content fits the prefix width, a
    length-prefixed string serializes to that many bytes of big-endian
    length followed by the bytes of the content; read back as an integer the
    prefix is the length. *)
Theorem serializeLPString_layout (lps : LengthPrefixedString.t) :
  let contentBuffer := Buffer_from (LengthPrefixedString.content lps) in
  let width := Z.to_nat (LengthPrefixedString.lengthPrefixBytes lps) in
  byteLength contentBuffer < 256 ^ Z.of_nat width ->
  serializeLPString lps
  = bigEndian width (Z.to_N (byteLength contentBuffer)) ++ contentBuffer
  /\ byteLength (serializeLPString lps) = Z.of_nat width + byteLength contentBuffer
  /\ hexStringToInt (Buffer_toString_hex (firstn width (serializeLPString lps)))
     = byteLength contentBuffer.
Proof.
  intros contentBuffer width H.
  pose proof (byteLength_nonneg contentBuffer) as H0.
  assert (E : serializeLPString lps
              = bigEndian width (Z.to_N (byteLength contentBuffer)) ++ contentBuffer)
    by now apply serializeLPString_bigEndian.
  split; [exact E|]. rewrite E. split.
  - unfold byteLength. rewrite length_app, length_bigEndian. lia.
  - rewrite <- (length_bigEndian width (Z.to_N (byteLength contentBuffer))) at 1.
    rewrite firstn_length_app. apply hexStringToInt_bigEndian. lia.
Qed.

(** X2.  [codeBodyString] rejects, with the string-too-long error, exactly
    the contents of more than 100000 bytes; what it accepts carries a
    four-byte prefix and serializes to the length on four big-endian bytes
    followed by the content. *)
Theorem codeBodyString_wire (content : string) :
  (codeBodyString content = Throw (StringLengthExceedsMaximum 100000)
   <-> byteLength (Buffer_from content) > 100000)
  /\ (byteLength (Buffer_from content) <= 100000 ->
      let body := {| LengthPrefixedString.content := content;
                     LengthPrefixedString.lengthPrefixBytes := 4;
                     LengthPrefixedString.maxLengthBytes := 100000 |} in
      codeBodyString content = Ok body
      /\ serializeLPString body
         = bigEndian 4 (Z.to_N (byteLength (Buffer_from content)))
           ++ Buffer_from content).
Proof.
  unfold codeBodyString, lengthPrefixedString, exceedsMaxLengthBytes.
  cbn [orDefault Z.eqb].
  destruct (Z.gtb_spec (byteLength (Buffer_from content)) 100000) as [Hgt|Hle].
  - split; [split; [lia|reflexivity]|]. intros H. lia.
  - split; [split; [discriminate|lia]|].
    intros _. split; [reflexivity|]. now apply serializeLPString_codeBody.
Qed.

(** X3.  The decoder of length-prefixed strings reads one byte of length
    whatever the width written.  On the encoding of a code body, whose
    first length byte is zero, it returns the empty string with the default
    settings and leaves the other three length bytes and the whole content
    unread. *)
Theorem deserializeLPString_codeBody (content : string) (rest : Buffer) :
  0 <= MAX_STRING_LENGTH_BYTES ->
  byteLength (Buffer_from content) <= 100000 ->
  let body := {| LengthPrefixedString.content := content;
                 LengthPrefixedString.lengthPrefixBytes := 4;
                 LengthPrefixedString.maxLengthBytes := 100000 |} in
  codeBodyString content = Ok body
  /\ deserializeLPString (serializeLPString body ++ rest)
     = Ok ({| LengthPrefixedString.content := EmptyString;
              LengthPrefixedString.lengthPrefixBytes := 1;
              LengthPrefixedString.maxLengthBytes := MAX_STRING_LENGTH_BYTES |},
           bigEndian 3 (Z.to_N (byteLength (Buffer_from content)))
           ++ Buffer_from content ++ rest).
Proof.
  intros Hmax Hlen body.
  split; [now apply codeBodyString_accepts|].
  unfold body. rewrite serializeLPString_codeBody by exact Hlen.
  pose proof (byteLength_nonneg (Buffer_from content)) as H0.
  rewrite (bigEndian_cons 3).
  replace (Z.to_N (byteLength (Buffer_from content)) / 256 ^ N.of_nat 3)%N with 0%N.
  2:{ symmetry. apply N.div_small. change (256 ^ N.of_nat 3)%N with 16777216%N. lia. }
  change (byteOfN 0) with x00. cbn [app].
  unfold deserializeLPString.
  rewrite (bind_Ok _ _ _ _ _ (readUInt8_cons _ _)).
  change (Z.of_N (Byte.to_N x00)) with 0.
  rewrite (bind_Ok _ _ _ _ _ (readBuffer_zero _)).
  unfold lift, lengthPrefixedString, exceedsMaxLengthBytes.
  cbn [orDefault Z.eqb Buffer_toString string_of_list_byte List.map
       string_of_list_ascii Buffer_from list_byte_of_string list_ascii_of_string
       byteLength List.length Z.of_nat].
  replace (0 >? MAX_STRING_LENGTH_BYTES) with false; [now rewrite <- app_assoc|].
  symmetry. rewrite Z.gtb_ltb. apply Z.ltb_ge. exact Hmax.
Qed.

(** X4.  The decoder stores the length it read as the prefix width of the
    string it returns.  A decoded string of [n] bytes, [n] at least 1,
    therefore serializes again with its length on [n] bytes, to [2 n] bytes
    in all: the bytes that were decoded come back only when [n] is 1. *)
Theorem serializeLPString_after_deserializeLPString
    (content : string) (rest : Buffer) :
  let contentBuffer := Buffer_from content in
  let n := byteLength contentBuffer in
  1 <= n <= 255 ->
  n <= MAX_STRING_LENGTH_BYTES ->
  exists decoded,
    deserializeLPString (byteOfN (Z.to_N n) :: contentBuffer ++ rest)
    = Ok (decoded, rest)
    /\ LengthPrefixedString.content decoded = content
    /\ serializeLPString decoded
       = bigEndian (Z.to_nat n) (Z.to_N n) ++ contentBuffer
    /\ byteLength (serializeLPString decoded) = 2 * n
    /\ (serializeLPString decoded = byteOfN (Z.to_N n) :: contentBuffer <-> n = 1).
Proof.
  intros contentBuffer n Hn Hmax.
  set (decoded := {| LengthPrefixedString.content := content;
                     LengthPrefixedString.lengthPrefixBytes := n;
                     LengthPrefixedString.maxLengthBytes := MAX_STRING_LENGTH_BYTES |}).
  exists decoded.
  assert (Hpow : n < 256 ^ Z.of_nat (Z.to_nat n)).
  { rewrite Z2Nat.id by lia.
    apply Z.lt_le_trans with (256 ^ 1); [lia|].
    apply Z.pow_le_mono_r; lia. }
  pose proof (serializeLPString_bigEndian decoded Hpow) as Hs.
  pose proof (length_serializeLPString decoded Hpow) as Hl.
  cbn [decoded LengthPrefixedString.content LengthPrefixedString.lengthPrefixBytes]
    in Hs, Hl. fold contentBuffer n in Hs, Hl.
  split; [|split; [reflexivity|split; [exact Hs|split]]].
  - unfold deserializeLPString.
    rewrite (bind_Ok _ _ _ _ _ (readUInt8_cons _ _)).
    rewrite to_N_byteOfN, Z2N.id by lia.
    rewrite (bind_Ok _ _ _ _ _ (readBuffer_app n contentBuffer rest eq_refl)).
    unfold lift, lengthPrefixedString, exceedsMaxLengthBytes, contentBuffer.
    rewrite toString_from. fold contentBuffer n.
    unfold orDefault. destruct (Z.eqb_spec n 0) as [E|_]; [lia|].
    replace (n >? MAX_STRING_LENGTH_BYTES) with false; [reflexivity|].
    symmetry. rewrite Z.gtb_ltb. apply Z.ltb_ge. exact Hmax.
  - rewrite Hl. lia.
  - split.
    + intros H. apply (f_equal byteLength) in H. rewrite Hl in H.
      assert (E : byteLength (byteOfN (Z.to_N n) :: contentBuffer) = 1 + n)
        by (unfold n, byteLength; cbn [List.length]; lia).
      lia.
    + intros H1. rewrite Hs, H1. reflexivity.
Qed.

(** X5.  Leaving out a width or a bound, or giving 0 for it, selects the
    default: the string returned has the content given, the width 1 and
    the default bound.  When, moreover, the default bound is at most 255,
    that string is one the decoder reads back: decoding its encoding
    succeeds, consumes exactly the encoding and returns the content. *)
Theorem lengthPrefixedString_defaults_decodable
    (content : string) (lengthPrefixBytes maxLengthBytes : option Z)
    (s : LengthPrefixedString.t) (rest : Buffer) :
  lengthPrefixBytes = None \/ lengthPrefixBytes = Some 0 \/ lengthPrefixBytes = Some 1 ->
  maxLengthBytes = None \/ maxLengthBytes = Some 0 ->
  lengthPrefixedString content lengthPrefixBytes maxLengthBytes = Ok s ->
  s = {| LengthPrefixedString.content := content;
         LengthPrefixedString.lengthPrefixBytes := 1;
         LengthPrefixedString.maxLengthBytes := MAX_STRING_LENGTH_BYTES |}
  /\ (MAX_STRING_LENGTH_BYTES <= 255 ->
      decodableString s
      /\ exists decoded,
           deserializeLPString (serializeLPString s ++ rest) = Ok (decoded, rest)
           /\ LengthPrefixedString.content decoded = content).
Proof.
  intros Hp Hm.
  assert (Ep : orDefault lengthPrefixBytes 1 = 1)
    by (destruct Hp as [-> | [-> | ->]]; reflexivity).
  assert (Em : orDefault maxLengthBytes MAX_STRING_LENGTH_BYTES = MAX_STRING_LENGTH_BYTES)
    by (destruct Hm as [-> | ->]; reflexivity).
  unfold lengthPrefixedString. rewrite Ep, Em. unfold exceedsMaxLengthBytes.
  destruct (Z.gtb_spec (byteLength (Buffer_from content)) MAX_STRING_LENGTH_BYTES)
    as [Hgt|Hle]; [discriminate|].
  intros H. injection H as <-.
  split; [reflexivity|]. intros H255.
  assert (Hd : decodableString
                 {| LengthPrefixedString.content := content;
                    LengthPrefixedString.lengthPrefixBytes := 1;
                    LengthPrefixedString.maxLengthBytes := MAX_STRING_LENGTH_BYTES |}).
  { unfold decodableString. cbn [LengthPrefixedString.content
      LengthPrefixedString.lengthPrefixBytes]. lia. }
  split; [exact Hd|].
  rewrite deserializeLPString_serializeLPString by exact Hd.
  eexists. split; reflexivity.
Qed.

(** *** Addresses read from the wire *)

Lemma isLowerHex_hexOfByte (x : byte) (s : string) :
  isLowerHex (hexOfByte x ++ s)%string = isLowerHex s.
Proof. destruct x; reflexivity. Qed.

Lemma isLowerHex_toString_hex (b : Buffer) :
  isLowerHex (Buffer_toString_hex b) = true.
Proof.
  induction b as [|x b IH]; [reflexivity|].
  cbn [Buffer_toString_hex]. now rewrite isLowerHex_hexOfByte.
Qed.

Lemma Buffer_from_append (s t : string) :
  Buffer_from (s ++ t)%string = Buffer_from s ++ Buffer_from t.
Proof.
  unfold Buffer_from, list_byte_of_string.
  induction s as [|c s IH]; [reflexivity|].
  cbn [String.append list_ascii_of_string List.map app]. now rewrite IH.
Qed.

Lemma Buffer_from_nulString (k : nat) : Buffer_from (nulString k) = repeat x00 k.
Proof.
  unfold Buffer_from, list_byte_of_string, nulString.
  induction k as [|k IH]; [reflexivity|].
  cbn [repeatChar list_ascii_of_string List.map repeat]. now rewrite IH.
Qed.

(** X6.  Any 21 bytes decode to an address, whatever follows them: the
    version is the first byte, the hash the other twenty in lower-case
    hexadecimal; the address is well formed and serializes to the same 21
    bytes. *)
Theorem serializeAddress_after_deserializeAddress (bytes rest : Buffer) :
  List.length bytes = 21%nat ->
  exists a,
    deserializeAddress (bytes ++ rest) = Ok (a, rest)
    /\ validAddress a
    /\ serializeAddress a = bytes.
Proof.
  intros Hlen. destruct bytes as [|v h]; [discriminate|].
  cbn [List.length] in Hlen. assert (Hh : List.length h = 20%nat) by lia.
  exists {| Address.version := Z.of_N (Byte.to_N v);
            Address.data := Buffer_toString_hex h |}.
  split; [|split].
  - unfold deserializeAddress.
    change ((v :: h) ++ rest) with ([v] ++ (h ++ rest)).
    rewrite (bind_Ok _ _ _ _ _ (readBuffer_app 1 [v] _ eq_refl)).
    rewrite (bind_Ok _ _ _ _ _ (readBuffer_app 20 h rest
                                  ltac:(unfold byteLength; rewrite Hh; reflexivity))).
    now rewrite hexStringToInt_byte.
  - unfold validAddress. cbn [Address.version Address.data].
    pose proof (Byte.to_N_bounded v).
    rewrite length_toString_hex, Hh, isLowerHex_toString_hex.
    repeat split; try reflexivity; lia.
  - rewrite serializeAddress_eq. cbn [Address.version Address.data].
    now rewrite intToHexString_byte, Buffer_from_hex_toString_hex.
Qed.

(** *** Address versions *)

(** X7.  The version computed from a hash mode and a network is a byte
    that tells the network and tells the single-signature mode P2PKH from
    the other three modes, and nothing more: two computations give the same
    version exactly when the networks agree and both or neither of the modes
    is P2PKH. *)
Theorem addressHashModeToVersion_separates
    (hashMode hashMode' : AddressHashMode.t) (txVersion txVersion' : TransactionVersion.t) :
  0 <= AddressVersion.value (addressHashModeToVersion hashMode txVersion) < 256
  /\ (AddressVersion.value (addressHashModeToVersion hashMode txVersion)
      = AddressVersion.value (addressHashModeToVersion hashMode' txVersion')
      <-> txVersion = txVersion'
          /\ (hashMode = AddressHashMode.SerializeP2PKH
              <-> hashMode' = AddressHashMode.SerializeP2PKH)).
Proof.
  split.
  - destruct hashMode, txVersion; cbn; lia.
  - destruct hashMode, txVersion, hashMode', txVersion';
      cbn [addressHashModeToVersion AddressVersion.value]; split.
    all: try (intros H;
              first [ discriminate H
                    | split; [reflexivity|];
                      split; intros E; first [reflexivity | discriminate E] ]).
    all: intros [Et [E1 E2]];
      first [ reflexivity
            | discriminate Et
            | specialize (E1 eq_refl); discriminate E1
            | specialize (E2 eq_refl); discriminate E2 ].
Qed.

(** X8.  An address made by [fromHashMode] from a hash of 40 lower-case
    hexadecimal digits is well formed, serializes to 21 bytes and is read
    back from them, whatever follows. *)
Theorem fromHashMode_roundtrip
    (hashMode : AddressHashMode.t) (txVersion : TransactionVersion.t)
    (data : string) (rest : Buffer) :
  String.length data = 40%nat ->
  isLowerHex data = true ->
  let a := fromHashMode hashMode txVersion data in
  validAddress a
  /\ List.length (serializeAddress a) = 21%nat
  /\ deserializeAddress (serializeAddress a ++ rest) = Ok (a, rest).
Proof.
  intros Hlen Hhex a.
  assert (Ha : validAddress a).
  { unfold a, fromHashMode, addressFromData, validAddress.
    cbn [Address.version Address.data].
    split; [|split; assumption].
    destruct hashMode, txVersion; cbn; lia. }
  split; [exact Ha|]. split.
  - now apply length_serializeAddress.
  - now apply deserializeAddress_serializeAddress.
Qed.

(** *** Memos *)

(** X9.  [memoString] accepts the empty content and every content of at
    most [MEMO_MAX_LENGTH_BYTES] bytes, and nothing else; what it rejects it
    rejects with the memo-too-long error. *)
Theorem memoString_accepts_iff (content : string) :
  (memoString content = Ok {| MemoString.content := content |}
   <-> content = EmptyString
       \/ byteLength (Buffer_from content) <= MEMO_MAX_LENGTH_BYTES)
  /\ (memoString content = Throw (MemoExceedsMaximumLength MEMO_MAX_LENGTH_BYTES)
      <-> content <> EmptyString
          /\ byteLength (Buffer_from content) > MEMO_MAX_LENGTH_BYTES).
Proof.
  unfold memoString, exceedsMaxLengthBytes.
  destruct (String.eqb_spec content EmptyString) as [E|E]; cbn [negb andb].
  - split; split; try discriminate.
    + intros _. now left.
    + reflexivity.
    + intros [H _]. now elim H.
  - destruct (Z.gtb_spec (byteLength (Buffer_from content)) MEMO_MAX_LENGTH_BYTES)
      as [Hgt|Hle]; split; split; try discriminate; try reflexivity.
    + intros [H|H]; [now elim E|lia].
    + intros _. split; [exact E|lia].
    + intros _. now right.
    + intros [_ H]. lia.
Qed.

(** X10.  The wire form of a memo is stable: decoding the 34 bytes (in
    general [MEMO_MAX_LENGTH_BYTES]) written for a memo that fits gives a
    memo whose content fills the whole width, and serializing that memo
    gives the same bytes again. *)
Theorem serializeMemoString_stable (m : MemoString.t) (rest : Buffer) :
  memoFits m ->
  exists decoded,
    deserializeMemoString (serializeMemoString m ++ rest) = Ok (decoded, rest)
    /\ byteLength (Buffer_from (MemoString.content decoded)) = MEMO_MAX_LENGTH_BYTES
    /\ serializeMemoString decoded = serializeMemoString m.
Proof.
  intros Hfit.
  rewrite deserializeMemoString_serializeMemoString by exact Hfit.
  eexists. split; [reflexivity|].
  cbn [MemoString.content].
  assert (E : Buffer_from (MemoString.content m ++ nulString (memoPadding m))%string
              = serializeMemoString m).
  { rewrite Buffer_from_append, Buffer_from_nulString.
    now rewrite serializeMemoString_eq by exact Hfit. }
  assert (L : byteLength
                (Buffer_from (MemoString.content m ++ nulString (memoPadding m))%string)
              = MEMO_MAX_LENGTH_BYTES).
  { rewrite E. now apply length_serializeMemoString. }
  split; [exact L|].
  set (d := {| MemoString.content :=
                 (MemoString.content m ++ nulString (memoPadding m))%string |}).
  assert (Hd : memoFits d) by (unfold memoFits, d; cbn [MemoString.content]; lia).
  rewrite (serializeMemoString_eq d Hd).
  unfold memoPadding, d. cbn [MemoString.content].
  rewrite L, Z.sub_diag. cbn [Z.to_nat repeat]. rewrite app_nil_r. exact E.
Qed.

(** *** Principals *)

Lemma Byte_eqb_neq (x y : byte) : x <> y -> Byte.eqb x y = false.
Proof.
  intros H. destruct (Byte.eqb x y) eqn:E; [|reflexivity].
  apply Byte.byte_dec_bl in E. now elim H.
Qed.

(** X11.  A principal whose first byte is the tag of neither kind is
    rejected with the unexpected-type error, whatever the byte and whatever
    follows it (the message of the error is a fixed text: it does not show
    the byte); an empty buffer is rejected too. *)
Theorem deserializePrincipal_unknown_tag (b : byte) (rest : Buffer) :
  (b <> PrincipalType_value PrincipalType.Standard ->
   b <> PrincipalType_value PrincipalType.Contract ->
   deserializePrincipal (b :: rest) = Throw UnexpectedPrincipalPayloadType)
  /\ exists e, deserializePrincipal [] = Throw e.
Proof.
  split.
  - intros Hs Hc.
    assert (E1 : Byte.eqb (PrincipalType_value PrincipalType.Standard) b = false)
      by (apply Byte_eqb_neq; congruence).
    assert (E2 : Byte.eqb (PrincipalType_value PrincipalType.Contract) b = false)
      by (apply Byte_eqb_neq; congruence).
    unfold deserializePrincipal. apply bind_Throw.
    unfold readUInt8Enum, PrincipalType.members. cbn [find].
    rewrite (bind_Ok _ _ _ _ _ (eq_refl : readByte (b :: rest) = Ok (b, rest))).
    now rewrite E1, E2.
  - eexists. reflexivity.
Qed.

Lemma length_serializePrincipal_standard (a : Address.t) :
  validAddress a -> byteLength (serializePrincipal (StandardPrincipal a)) = 22.
Proof.
  intros Ha. rewrite serializePrincipal_eq. cbn [Principal_address].
  unfold byteLength. cbn [List.length]. rewrite length_app.
  rewrite length_serializeAddress by exact Ha. reflexivity.
Qed.

(** X12.  The principals built by [standardPrincipal] and
    [contractPrincipal] from a well-formed address are read back from their
    encoding, whatever follows it: a standard principal takes 22 bytes and
    comes back equal; a contract principal, when the default bound of
    strings is at most 255, takes 23 bytes and the bytes of the name, and
    comes back with the same address and the same name. *)
Theorem principal_constructors_roundtrip
    (addressString contractName : string) (a : Address.t) (rest : Buffer) :
  address addressString = Ok a ->
  validAddress a ->
  (standardPrincipal addressString = Ok (StandardPrincipal a)
   /\ byteLength (serializePrincipal (StandardPrincipal a)) = 22
   /\ deserializePrincipal (serializePrincipal (StandardPrincipal a) ++ rest)
      = Ok (StandardPrincipal a, rest))
  /\ (MAX_STRING_LENGTH_BYTES <= 255 ->
      forall p, contractPrincipal addressString contractName = Ok p ->
      exists name',
        deserializePrincipal (serializePrincipal p ++ rest)
        = Ok (ContractPrincipal a name', rest)
        /\ LengthPrefixedString.content name' = contractName
        /\ byteLength (serializePrincipal p)
           = 23 + byteLength (Buffer_from contractName)).
Proof.
  intros Haddr Ha. split.
  - split; [|split].
    + unfold standardPrincipal. now rewrite Haddr.
    + now apply length_serializePrincipal_standard.
    + now apply deserializePrincipal_standard.
  - intros H255 p Hp. unfold contractPrincipal in Hp. rewrite Haddr in Hp.
    cbn [bindResult] in Hp.
    unfold lengthPrefixedString, exceedsMaxLengthBytes in Hp. cbn [orDefault] in Hp.
    destruct (Z.gtb_spec (byteLength (Buffer_from contractName)) MAX_STRING_LENGTH_BYTES)
      as [Hgt|Hle]; [discriminate|].
    cbn [bindResult] in Hp. injection Hp as <-.
    set (name := {| LengthPrefixedString.content := contractName;
                    LengthPrefixedString.lengthPrefixBytes := 1;
                    LengthPrefixedString.maxLengthBytes := MAX_STRING_LENGTH_BYTES |}).
    assert (Hd : decodableString name).
    { unfold decodableString, name. cbn [LengthPrefixedString.content
        LengthPrefixedString.lengthPrefixBytes]. lia. }
    rewrite deserializePrincipal_contract by assumption.
    rewrite deserializeLPString_serializeLPString by exact Hd.
    eexists. split; [reflexivity|]. split; [reflexivity|].
    rewrite serializePrincipal_eq. cbn [Principal_address].
    pose proof (byteLength_nonneg (Buffer_from contractName)) as H0.
    assert (Hl : byteLength (serializeLPString name)
                 = 1 + byteLength (Buffer_from contractName)).
    { rewrite length_serializeLPString;
        cbn [name LengthPrefixedString.content LengthPrefixedString.lengthPrefixBytes].
      - reflexivity.
      - change (256 ^ Z.of_nat (Z.to_nat 1)) with 256. lia. }
    unfold byteLength in *. cbn [List.length]. rewrite length_app.
    rewrite length_serializeAddress by exact Ha. lia.
Qed.

(** *** Asset identifiers *)


(** *** Lists *)

Lemma concatReturned_Some (chunks : list Buffer) :
  concatReturned (List.map Some chunks) = Ok (List.concat chunks).
Proof.
  induction chunks as [|c chunks IH]; [reflexivity|].
  cbn [List.map concatReturned List.concat]. now rewrite IH.
Qed.

Lemma pushMessages_Ok (values : list StacksMessage) (chunks : list Buffer) :
  Forall2 (fun message chunk => serializeStacksMessage message = Ok (Some chunk))
    values chunks ->
  forall bufferArray,
    pushMessages bufferArray values = Ok (bufferArray ++ List.map Some chunks).
Proof.
  induction 1 as [|m c values chunks Hm _ IH]; intros bufferArray.
  - cbn. now rewrite app_nil_r.
  - cbn [pushMessages List.map]. unfold pushMessage. rewrite Hm.
    cbn [bindResult]. rewrite IH. unfold pushReturned. now rewrite <- app_assoc.
Qed.

Lemma pushMessages_Throw (before : list StacksMessage) (chunks : list Buffer)
    (message : StacksMessage) (after : list StacksMessage) (e : Error) :
  Forall2 (fun message chunk => serializeStacksMessage message = Ok (Some chunk))
    before chunks ->
  serializeStacksMessage message = Throw e ->
  forall bufferArray,
    pushMessages bufferArray (before ++ message :: after) = Throw e.
Proof.
  intros Hall He.
  induction Hall as [|m c before chunks Hm _ IH]; intros bufferArray.
  - cbn [app pushMessages]. unfold pushMessage. now rewrite He.
  - cbn [app pushMessages]. unfold pushMessage. rewrite Hm.
    cbn [bindResult]. apply IH.
Qed.

Lemma serializeLengthPrefixedList_chunks
    (values : list StacksMessage) (lengthPrefixBytes : Z) (chunks : list Buffer) :
  Forall2 (fun message chunk => serializeStacksMessage message = Ok (Some chunk))
    values chunks ->
  Z.of_nat (List.length values) < 256 ^ Z.of_nat (Z.to_nat lengthPrefixBytes) ->
  serializeLengthPrefixedList
    {| LengthPrefixedList.lengthPrefixBytes := lengthPrefixBytes;
       LengthPrefixedList.values := values |}
  = Ok (bigEndian (Z.to_nat lengthPrefixBytes) (N.of_nat (List.length values))
        ++ List.concat chunks).
Proof.
  intros Hall Hcount. unfold serializeLengthPrefixedList, pushReturned.
  cbn [LengthPrefixedList.values LengthPrefixedList.lengthPrefixBytes app].
  rewrite (pushMessages_Ok _ _ Hall). cbn [bindResult app concatReturned].
  rewrite concatReturned_Some. cbn [bindResult].
  rewrite intToHexString_bigEndian by lia.
  now rewrite <- nat_N_Z, N2Z.id.
Qed.

(** X14.  If the dispatcher returns a buffer for every element of a list,
    and the count fits the prefix width, the list serializes to the count
    on that many big-endian bytes followed by the encodings of the
    elements, in order.  If the dispatcher throws on an element, and
    returns a buffer for those before it, the serialization of the list
    throws the same error. *)
Theorem serializeLengthPrefixedList_layout
    (values : list StacksMessage) (lengthPrefixBytes : Z) :
  (forall chunks,
     Forall2 (fun message chunk => serializeStacksMessage message = Ok (Some chunk))
       values chunks ->
     Z.of_nat (List.length values) < 256 ^ Z.of_nat (Z.to_nat lengthPrefixBytes) ->
     serializeLengthPrefixedList
       {| LengthPrefixedList.lengthPrefixBytes := lengthPrefixBytes;
          LengthPrefixedList.values := values |}
     = Ok (bigEndian (Z.to_nat lengthPrefixBytes) (N.of_nat (List.length values))
           ++ List.concat chunks))
  /\ (forall before chunks message after e,
        values = before ++ message :: after ->
        Forall2
          (fun message chunk => serializeStacksMessage message = Ok (Some chunk))
          before chunks ->
        serializeStacksMessage message = Throw e ->
        serializeLengthPrefixedList
          {| LengthPrefixedList.lengthPrefixBytes := lengthPrefixBytes;
             LengthPrefixedList.values := values |}
        = Throw e).
Proof.
  split.
  - intros chunks. apply serializeLengthPrefixedList_chunks.
  - intros before chunks message after e -> Hall He.
    unfold serializeLengthPrefixedList.
    cbn [LengthPrefixedList.values LengthPrefixedList.lengthPrefixBytes].
    now rewrite (pushMessages_Throw before chunks message after e Hall He).
Qed.





(** X17.  A count of zero gives the empty list for every kind of element,
    also for the kinds whose case runs on into the next one: the loop body
    is not entered, the list records the prefix width, and what follows the
    count is left unread. *)
Theorem deserializeLengthPrefixedList_empty
    (lengthPrefixBytes : Z) (type : MessageTypeTag) (rest : Buffer) :
  1 <= lengthPrefixBytes ->
  deserializeLengthPrefixedList lengthPrefixBytes type
    (bigEndian (Z.to_nat lengthPrefixBytes) 0 ++ rest)
  = Ok ({| LengthPrefixedList.lengthPrefixBytes := lengthPrefixBytes;
           LengthPrefixedList.values := [] |}, rest).
Proof.
  intros Hw. unfold deserializeLengthPrefixedList.
  rewrite (bind_Ok _ _ _ _ _
             (readBuffer_app lengthPrefixBytes
                (bigEndian (Z.to_nat lengthPrefixBytes) 0) rest
                ltac:(unfold byteLength; rewrite length_bigEndian; lia))).
  change 0%N with (Z.to_N 0).
  rewrite hexStringToInt_bigEndian by (split; [lia|apply Z.pow_pos_nonneg; lia]).
  unfold lengthPrefixedList, orDefault.
  destruct (Z.eqb_spec lengthPrefixBytes 0); [lia|reflexivity].
Qed.

(** *** Payloads *)

Lemma pushArgs_Ok (args : list ClarityValue) (chunks : list Buffer) :
  Forall2 (fun arg chunk => serializeCV arg = Ok chunk) args chunks ->
  forall bufferArray,
    pushArgs bufferArray args = Ok (bufferArray ++ List.map Some chunks).
Proof.
  induction 1 as [|arg c args chunks Harg _ IH]; intros bufferArray.
  - cbn. now rewrite app_nil_r.
  - cbn [pushArgs List.map]. rewrite Harg. cbn [bindResult].
    rewrite IH. unfold pushReturned. now rewrite <- app_assoc.
Qed.

Lemma pushArgs_Throw (args : list ClarityValue) :
  (exists arg e, In arg args /\ serializeCV arg = Throw e) ->
  forall bufferArray, exists e, pushArgs bufferArray args = Throw e.
Proof.
  induction args as [|arg args IH]; intros [bad [e [Hin Hbad]]] bufferArray.
  - destruct Hin.
  - cbn [pushArgs]. destruct (serializeCV arg) as [c|e'] eqn:E.
    + cbn [bindResult]. apply IH. destruct Hin as [->|Hin]; [congruence|].
      now exists bad, e.
    + now exists e'.
Qed.

Lemma pushArgs_head (args : list ClarityValue) :
  forall (first : option Buffer) (bufferArray result : list (option Buffer)),
    pushArgs (first :: bufferArray) args = Ok result ->
    exists others, result = first :: others.
Proof.
  induction args as [|arg args IH]; intros first bufferArray result H.
  - cbn in H. injection H as <-. now exists bufferArray.
  - cbn [pushArgs] in H. destruct (serializeCV arg) as [c|e]; [|discriminate].
    cbn [bindResult] in H. unfold pushReturned in H. cbn [app] in H.
    now apply IH in H.
Qed.

Lemma pushMessage_head (first : option Buffer)
    (bufferArray result : list (option Buffer)) (message : StacksMessage) :
  pushMessage (first :: bufferArray) message = Ok result ->
  exists others, result = first :: others.
Proof.
  unfold pushMessage, pushReturned.
  destruct (serializeStacksMessage message) as [chunk|]; [|discriminate].
  cbn [bindResult app]. intros H. injection H as <-. now eexists.
Qed.

Lemma concatReturned_head (chunk : Buffer) (others : list (option Buffer))
    (buffer : Buffer) :
  concatReturned (Some chunk :: others) = Ok buffer ->
  exists body, buffer = chunk ++ body.
Proof.
  cbn [concatReturned]. destruct (concatReturned others) as [tail|]; [|discriminate].
  cbn [bindResult]. intros H. injection H as <-. now exists tail.
Qed.

Lemma bindResult_Ok_inv {A B : Type} (m : Result A) (k : A -> Result B) (b : B) :
  (let? x := m in k x) = Ok b -> exists a, m = Ok a /\ k a = Ok b.
Proof. destruct m as [a|e]; [|discriminate]. intros H. now exists a. Qed.

Ltac payload_steps :=
  repeat match goal with
         | H : bindResult _ _ = Ok _ |- _ =>
             apply bindResult_Ok_inv in H; destruct H as [? [? H]]
         | H : Ok _ = Ok _ |- _ => injection H as <-
         | H : pushMessage (_ :: _) _ = Ok _ |- _ =>
             apply pushMessage_head in H; destruct H as [? ->]; cbn [app] in *
         | H : pushArgs (_ :: _) _ = Ok _ |- _ =>
             apply pushArgs_head in H; destruct H as [? ->]; cbn [app] in *
         end.

(** X18.  Whatever the payload, a serialization that succeeds starts with
    the tag byte of the kind of the payload. *)
Theorem serializePayload_starts_with_tag (payload : Payload) (buffer : Buffer) :
  serializePayload payload = Ok buffer ->
  exists body, buffer = PayloadType_value (payloadType payload) :: body.
Proof.
  unfold serializePayload, pushReturned. cbn [app].
  set (tag := Some [PayloadType_value (payloadType payload)]).
  intros H.
  assert (Hhead : forall entries,
             concatReturned (tag :: entries) = Ok buffer ->
             exists body, buffer = PayloadType_value (payloadType payload) :: body).
  { intros entries He.
    apply concatReturned_head in He. destruct He as [body ->]. now exists body. }
  destruct payload as [a amount memo|a name fn args|name body| |coinbaseBuffer];
    payload_steps; now apply (Hhead _ H).
Qed.




(** X20.  When 1, the number of [StacksMessageType.LengthPrefixedString],
    is the number of no kind of principal, a contract call whose arguments
    all serialize is written as the tag, the address, the two names, the
    number of arguments on 4 big-endian bytes and the encodings of the
    arguments in call order.  Whatever the tags, if the encoder of Clarity
    values throws on an argument, the serialization throws. *)
Theorem serializePayload_contractCall
    (a : Address.t) (contractName functionName : LengthPrefixedString.t)
    (functionArgs : list ClarityValue) :
  (notPrincipalNumber StacksMessageType.LengthPrefixedString ->
   forall chunks,
     Forall2 (fun arg chunk => serializeCV arg = Ok chunk) functionArgs chunks ->
     serializePayload (ContractCallPayload a contractName functionName functionArgs)
     = Ok (PayloadType_value PayloadType.ContractCall
           :: serializeAddress a
              ++ serializeLPString contractName
              ++ serializeLPString functionName
              ++ bigEndian 4 (N.of_nat (List.length functionArgs))
              ++ List.concat chunks))
  /\ ((exists arg e, In arg functionArgs /\ serializeCV arg = Throw e) ->
      exists e,
        serializePayload (ContractCallPayload a contractName functionName functionArgs)
        = Throw e).
Proof.
  split.
  - intros Hapart chunks Hall. unfold serializePayload, pushMessage, pushReturned.
    rewrite serializeStacksMessage_address.
    rewrite !(serializeStacksMessage_string _ Hapart).
    cbn [payloadType bindResult app].
    rewrite (pushArgs_Ok _ _ Hall). cbn [bindResult app concatReturned].
    now rewrite concatReturned_Some.
  - intros Hbad. unfold serializePayload, pushMessage.
    rewrite serializeStacksMessage_address. cbn [bindResult].
    destruct (serializeStacksMessage (MsgLengthPrefixedString contractName))
      as [c1|e1]; [cbn [bindResult]|now exists e1].
    destruct (serializeStacksMessage (MsgLengthPrefixedString functionName))
      as [c2|e2]; [cbn [bindResult]|now exists e2].
    match goal with
    | |- exists e, (let? _ := pushArgs ?acc _ in _) = _ =>
        destruct (pushArgs_Throw _ Hbad acc) as [e He]
    end.
    exists e. now rewrite He.
Qed.


(** *** Clarity principals *)

(** X21.  A contract principal returned by [contractPrincipalCV] has a
    name shorter than 128 bytes, the name and the decoded address it was
    given, and is the value [contractPrincipalCVFromStandard] returns for
    the standard principal of the same address. *)
Theorem contractPrincipalCV_invariant
    (addressString contractName : string) (cv : ContractPrincipalCV.t) :
  contractPrincipalCV addressString contractName = Returned cv ->
  byteLength (Buffer_from contractName) < 128
  /\ LengthPrefixedString.content (ContractPrincipalCV.contractName cv) = contractName
  /\ address addressString = Ok (ContractPrincipalCV.address cv)
  /\ exists sp,
       standardPrincipalCV addressString = Ok sp
       /\ contractPrincipalCVFromStandard sp contractName = Ok cv.
Proof.
  unfold contractPrincipalCV, standardPrincipalCV, contractPrincipalCVFromStandard.
  destruct (address addressString) as [addr|]; [|discriminate].
  destruct (lengthPrefixedString contractName None None) as [name|] eqn:En;
    [|discriminate].
  assert (Ec : LengthPrefixedString.content name = contractName).
  { unfold lengthPrefixedString in En.
    destruct (exceedsMaxLengthBytes contractName _); [discriminate|].
    now injection En as <-. }
  unfold contractPrincipalCVFromAddress. rewrite Ec.
  destruct (Z.geb_spec (byteLength (Buffer_from contractName)) 128) as [Hge|Hlt];
    [discriminate|].
  intros H. injection H as <-. cbn [ContractPrincipalCV.contractName
    ContractPrincipalCV.address bindResult].
  split; [lia|]. split; [exact Ec|]. split; [reflexivity|].
  eexists. split; reflexivity.
Qed.

(** X22.  The three constructors of contract principals do not apply the
    same bound.  A name of 128 bytes or more that the default bound of
    strings admits is rejected by [contractPrincipalCV] and by
    [contractPrincipalCVFromAddress], with the contract-name error, and
    accepted by [contractPrincipalCVFromStandard]. *)
Theorem contractPrincipalCV_bound_not_shared
    (addressString contractName : string) (a : Address.t) :
  address addressString = Ok a ->
  128 <= byteLength (Buffer_from contractName) <= MAX_STRING_LENGTH_BYTES ->
  let name := {| LengthPrefixedString.content := contractName;
                 LengthPrefixedString.lengthPrefixBytes := 1;
                 LengthPrefixedString.maxLengthBytes := MAX_STRING_LENGTH_BYTES |} in
  contractPrincipalCV addressString contractName = Failed ContractNameTooLong
  /\ contractPrincipalCVFromAddress a name = Failed ContractNameTooLong
  /\ contractPrincipalCVFromStandard (standardPrincipalCVFromAddress a) contractName
     = Ok {| ContractPrincipalCV.address := a;
             ContractPrincipalCV.contractName := name |}.
Proof.
  intros Ha Hlen name.
  assert (En : lengthPrefixedString contractName None None = Ok name).
  { unfold lengthPrefixedString, exceedsMaxLengthBytes. cbn [orDefault].
    destruct (Z.gtb_spec (byteLength (Buffer_from contractName)) MAX_STRING_LENGTH_BYTES);
      [lia|reflexivity]. }
  assert (Ef : contractPrincipalCVFromAddress a name = Failed ContractNameTooLong).
  { unfold contractPrincipalCVFromAddress, name. cbn [LengthPrefixedString.content].
    destruct (Z.geb_spec (byteLength (Buffer_from contractName)) 128);
      [reflexivity|lia]. }
  split; [|split].
  - unfold contractPrincipalCV. now rewrite Ha, En.
  - exact Ef.
  - unfold contractPrincipalCVFromStandard, standardPrincipalCVFromAddress.
    now rewrite En.
Qed.

End Codec.

(** ** The definitions at the concrete parameters of [Sample] *)

Local Open Scope string_scope.

(** At the tags of [Sample], 5 and 6, no number of [PrincipalType] is a
    number of [StacksMessageType]. *)
Lemma tagsApart_Sample : tagsApart Sample.PrincipalType_value.
Proof. intros [| | |] [|]; discriminate. Qed.

(** Instances of C1 as amended, one for each kind: the address of
    [Sample], the standard principal on it, the string "ab", the contract
    principal and the asset identifier made of them, and the memo "hi". *)
Lemma roundtrip_by_kind_witness :
  let s := {| LengthPrefixedString.content := "ab";
              LengthPrefixedString.lengthPrefixBytes := 1;
              LengthPrefixedString.maxLengthBytes := 128 |} in
  let i := {| AssetInfo.address := Sample.anAddress;
              AssetInfo.contractName := s;
              AssetInfo.assetName := s |} in
  let m := {| MemoString.content := "hi" |} in
  Sample.PrincipalType_value PrincipalType.Standard
  <> Sample.PrincipalType_value PrincipalType.Contract
  /\ validAddress Sample.anAddress
  /\ decodableString Sample.MAX_STRING_LENGTH_BYTES s
  /\ memoFits Sample.MEMO_MAX_LENGTH_BYTES m
  /\ decode deserializeAddress (serializeAddress Sample.anAddress)
     = Ok (Sample.anAddress, [])
  /\ decode (deserializePrincipal Sample.MAX_STRING_LENGTH_BYTES
               Sample.PrincipalType_value)
       (serializePrincipal Sample.PrincipalType_value
          (StandardPrincipal Sample.anAddress))
     = Ok (StandardPrincipal Sample.anAddress, [])
  /\ (exists s',
        decode (deserializeLPString Sample.MAX_STRING_LENGTH_BYTES)
          (serializeLPString s)
        = Ok (s', [])
        /\ LengthPrefixedString.content s' = "ab"
        /\ LengthPrefixedString.maxLengthBytes s' = 128)
  /\ (exists name',
        decode (deserializePrincipal Sample.MAX_STRING_LENGTH_BYTES
                  Sample.PrincipalType_value)
          (serializePrincipal Sample.PrincipalType_value
             (ContractPrincipal Sample.anAddress s))
        = Ok (ContractPrincipal Sample.anAddress name', [])
        /\ LengthPrefixedString.content name' = "ab"
        /\ LengthPrefixedString.maxLengthBytes name' = 128)
  /\ (exists contractName assetName,
        decode (deserializeAssetInfo Sample.MAX_STRING_LENGTH_BYTES)
          (serializeAssetInfo i)
        = Ok ({| AssetInfo.address := Sample.anAddress;
                 AssetInfo.contractName := contractName;
                 AssetInfo.assetName := assetName |}, [])
        /\ LengthPrefixedString.content contractName = "ab"
        /\ LengthPrefixedString.content assetName = "ab"
        /\ LengthPrefixedString.maxLengthBytes contractName = 128
        /\ LengthPrefixedString.maxLengthBytes assetName = 128)
  /\ decode (deserializeMemoString Sample.MEMO_MAX_LENGTH_BYTES)
       (serializeMemoString Sample.MEMO_MAX_LENGTH_BYTES m)
     = Ok ({| MemoString.content := "hi" ++ nulString 32 |}, [])
  /\ (decode (deserializeMemoString Sample.MEMO_MAX_LENGTH_BYTES)
         (serializeMemoString Sample.MEMO_MAX_LENGTH_BYTES m)
       = Ok (m, [])
       <-> byteLength (Buffer_from "hi") = Sample.MEMO_MAX_LENGTH_BYTES).
Proof.
  cbv zeta.
  assert (Hd : Sample.PrincipalType_value PrincipalType.Standard
               <> Sample.PrincipalType_value PrincipalType.Contract) by discriminate.
  assert (Ha : validAddress Sample.anAddress).
  { split; [|split]; [cbn; lia|reflexivity|reflexivity]. }
  assert (Hs : decodableString Sample.MAX_STRING_LENGTH_BYTES
                 {| LengthPrefixedString.content := "ab";
                    LengthPrefixedString.lengthPrefixBytes := 1;
                    LengthPrefixedString.maxLengthBytes := 128 |}).
  { split; [reflexivity|split; discriminate]. }
  assert (Hm : memoFits Sample.MEMO_MAX_LENGTH_BYTES {| MemoString.content := "hi" |})
    by discriminate.
  destruct (roundtrip_by_kind Sample.MAX_STRING_LENGTH_BYTES
              Sample.MEMO_MAX_LENGTH_BYTES Sample.PrincipalType_value Hd)
    as [Haddress [Hstandard [Hstring [Hcontract [Hasset Hmemo]]]]].
  split; [exact Hd|]. split; [exact Ha|]. split; [exact Hs|]. split; [exact Hm|].
  split; [exact (Haddress _ Ha)|].
  split; [exact (Hstandard _ Ha)|].
  split; [exact (Hstring _ Hs)|].
  split; [exact (Hcontract _ _ Ha Hs)|].
  split; [exact (Hasset
                   {| AssetInfo.address := Sample.anAddress;
                      AssetInfo.contractName := _;
                      AssetInfo.assetName := _ |} Ha Hs Hs)|].
  exact (Hmemo _ Hm).
Defined.

(** C1 fails as stated.  The string built by [lengthPrefixedString("ab")]
    has a prefix width of 1; it is written as [02 61 62]; the decoder
    returns the content with a prefix width of 2, the length it read.  And
    the memo "hi" comes back with the 32 NUL characters of its padding. *)
Lemma roundtrip_counterexample :
  let v := {| LengthPrefixedString.content := "ab";
              LengthPrefixedString.lengthPrefixBytes := 1;
              LengthPrefixedString.maxLengthBytes := 128 |} in
  let m := {| MemoString.content := "hi" |} in
  lengthPrefixedString Sample.MAX_STRING_LENGTH_BYTES "ab" None None = Ok v
  /\ serializeStacksMessage Sample.MEMO_MAX_LENGTH_BYTES Sample.PrincipalType_value
       (MsgLengthPrefixedString v)
     = Ok (Some [x02; x61; x62])
  /\ decode (deserializeLPString Sample.MAX_STRING_LENGTH_BYTES) [x02; x61; x62]
     = Ok ({| LengthPrefixedString.content := "ab";
              LengthPrefixedString.lengthPrefixBytes := 2;
              LengthPrefixedString.maxLengthBytes := 128 |}, [])
  /\ decode (deserializeLPString Sample.MAX_STRING_LENGTH_BYTES) (serializeLPString v)
     <> Ok (v, [])
  /\ memoString Sample.MEMO_MAX_LENGTH_BYTES "hi" = Ok m
  /\ decode (deserializeMemoString Sample.MEMO_MAX_LENGTH_BYTES)
       (serializeMemoString Sample.MEMO_MAX_LENGTH_BYTES m)
     = Ok ({| MemoString.content := "hi" ++ nulString 32 |}, [])
  /\ decode (deserializeMemoString Sample.MEMO_MAX_LENGTH_BYTES)
       (serializeMemoString Sample.MEMO_MAX_LENGTH_BYTES m)
     <> Ok (m, []).
Proof.
  cbv zeta.
  split; [reflexivity|]. split; [reflexivity|]. split; [reflexivity|].
  split; [vm_compute; discriminate|].
  split; [reflexivity|]. split; [reflexivity|].
  vm_compute; discriminate.
Qed.

(** C2 at a failing input.  A list of one address, count on 4 bytes: after
    the address the loop body goes on to read a length-prefixed string, and
    the buffer is exhausted.  A list of one memo followed by the bytes of an
    asset identifier and of a principal: the single iteration pushes three
    values. *)
Theorem deserializeLengthPrefixedList_falls_through :
  decode (deserializeLengthPrefixedList Sample.MAX_STRING_LENGTH_BYTES
            Sample.MEMO_MAX_LENGTH_BYTES Sample.PrincipalType_value 4
            (OfStacksMessageType StacksMessageType.Address))
    ([x00; x00; x00; x01] ++ serializeAddress Sample.anAddress)%list
  = Throw UnexpectedEof
  /\ decode (deserializeLengthPrefixedList Sample.MAX_STRING_LENGTH_BYTES
               Sample.MEMO_MAX_LENGTH_BYTES Sample.PrincipalType_value 4
               (OfStacksMessageType StacksMessageType.MemoString))
       ([x00; x00; x00; x01]
        ++ serializeMemoString Sample.MEMO_MAX_LENGTH_BYTES
             {| MemoString.content := "hi" |}
        ++ serializeAddress Sample.anAddress ++ [x01; x63] ++ [x01; x74]
        ++ serializePrincipal Sample.PrincipalType_value
             (StandardPrincipal Sample.anAddress))%list
     = Ok ({| LengthPrefixedList.lengthPrefixBytes := 4;
              LengthPrefixedList.values :=
                [ MsgMemoString {| MemoString.content := "hi" ++ nulString 32 |};
                  MsgAssetInfo
                    {| AssetInfo.address := Sample.anAddress;
                       AssetInfo.contractName :=
                         {| LengthPrefixedString.content := "c";
                            LengthPrefixedString.lengthPrefixBytes := 1;
                            LengthPrefixedString.maxLengthBytes := 128 |};
                       AssetInfo.assetName :=
                         {| LengthPrefixedString.content := "t";
                            LengthPrefixedString.lengthPrefixBytes := 1;
                            LengthPrefixedString.maxLengthBytes := 128 |} |};
                  MsgPrincipal (StandardPrincipal Sample.anAddress) ] |}, []).
Proof. split; reflexivity. Qed.

(** C3 at a failing input.  For the contract name "hello-world" and the
    code body "(define-public (get) (ok 1))", as for any other code body,
    the code body of the payload is built from the contract name; the text
    given as second argument is nowhere in the payload. *)
Theorem smartContractPayload_body_is_contractName :
  smartContractPayload Sample.MAX_STRING_LENGTH_BYTES (ClarityValue := unit)
    "hello-world" "(define-public (get) (ok 1))"
  = Ok (SmartContractPayload
          {| LengthPrefixedString.content := "hello-world";
             LengthPrefixedString.lengthPrefixBytes := 1;
             LengthPrefixedString.maxLengthBytes := 128 |}
          {| LengthPrefixedString.content := "hello-world";
             LengthPrefixedString.lengthPrefixBytes := 4;
             LengthPrefixedString.maxLengthBytes := 100000 |})
  /\ forall codeBody : string,
       smartContractPayload Sample.MAX_STRING_LENGTH_BYTES (ClarityValue := unit)
         "hello-world" codeBody
       = Ok (SmartContractPayload
               {| LengthPrefixedString.content := "hello-world";
                  LengthPrefixedString.lengthPrefixBytes := 1;
                  LengthPrefixedString.maxLengthBytes := 128 |}
               {| LengthPrefixedString.content := "hello-world";
                  LengthPrefixedString.lengthPrefixBytes := 4;
                  LengthPrefixedString.maxLengthBytes := 100000 |}).
Proof. split; [reflexivity|]. intros codeBody. reflexivity. Qed.



(** An instance of C5 as amended: a content of exactly the bound. *)
Lemma lengthPrefixedString_bound_witness :
  1 <= 3
  /\ byteLength (Buffer_from "abc") <= 3
  /\ lengthPrefixedString Sample.MAX_STRING_LENGTH_BYTES "abc" None (Some 3)
     = Ok {| LengthPrefixedString.content := "abc";
             LengthPrefixedString.lengthPrefixBytes := 1;
             LengthPrefixedString.maxLengthBytes := 3 |}.
Proof.
  assert (H1 : 1 <= 3) by lia.
  assert (H2 : byteLength (Buffer_from "abc") <= 3) by (cbn; lia).
  split; [exact H1|]. split; [exact H2|].
  exact (proj2 (lengthPrefixedString_bound Sample.MAX_STRING_LENGTH_BYTES
                  "abc" None 3 H1) H2).
Defined.

(** C5 fails as stated.  With a bound of one byte the one-byte content "a",
    whose length is greater than or equal to the bound, is accepted. *)
Lemma lengthPrefixedString_counterexample :
  byteLength (Buffer_from "a") >= 1
  /\ lengthPrefixedString Sample.MAX_STRING_LENGTH_BYTES "a" None (Some 1)
     = Ok {| LengthPrefixedString.content := "a";
             LengthPrefixedString.lengthPrefixBytes := 1;
             LengthPrefixedString.maxLengthBytes := 1 |}
  /\ forall e,
       lengthPrefixedString Sample.MAX_STRING_LENGTH_BYTES "a" None (Some 1)
       <> Throw e.
Proof.
  split; [cbn; lia|]. split; [reflexivity|]. intros e. discriminate.
Qed.

(** An instance of C6: a memo of exactly 34 bytes. *)
Lemma memoString_boundary_witness :
  byteLength (Buffer_from "abcdefghijklmnopqrstuvwxyz01234567")
  = Sample.MEMO_MAX_LENGTH_BYTES
  /\ memoString Sample.MEMO_MAX_LENGTH_BYTES "abcdefghijklmnopqrstuvwxyz01234567"
     = Ok {| MemoString.content := "abcdefghijklmnopqrstuvwxyz01234567" |}
  /\ serializeMemoString Sample.MEMO_MAX_LENGTH_BYTES
       {| MemoString.content := "abcdefghijklmnopqrstuvwxyz01234567" |}
     = Buffer_from "abcdefghijklmnopqrstuvwxyz01234567".
Proof.
  assert (H : byteLength (Buffer_from "abcdefghijklmnopqrstuvwxyz01234567")
              = Sample.MEMO_MAX_LENGTH_BYTES) by reflexivity.
  split; [exact H|].
  destruct (proj1 (memoString_boundary Sample.MEMO_MAX_LENGTH_BYTES
                     "abcdefghijklmnopqrstuvwxyz01234567") H) as [H1 [H2 _]].
  split; [exact H1|exact H2].
Defined.

(** An instance of C7: a buffer of 32 bytes. *)
Lemma coinbasePayload_wire_witness :
  byteLength (repeat xff 32) = Sample.COINBASE_BUFFER_LENGTH_BYTES
  /\ coinbasePayload Sample.COINBASE_BUFFER_LENGTH_BYTES (ClarityValue := unit)
       (repeat xff 32)
     = Ok (CoinbasePayload (repeat xff 32))
  /\ serializePayload Sample.MEMO_MAX_LENGTH_BYTES Sample.PrincipalType_value
       Sample.PayloadType_value Sample.serializeCV (CoinbasePayload (repeat xff 32))
     = Ok (x04 :: repeat xff 32).
Proof.
  assert (H : byteLength (repeat xff 32) = Sample.COINBASE_BUFFER_LENGTH_BYTES)
    by reflexivity.
  pose proof (coinbasePayload_wire Sample.MEMO_MAX_LENGTH_BYTES
                Sample.COINBASE_BUFFER_LENGTH_BYTES Sample.PrincipalType_value
                Sample.PayloadType_value Sample.serializeCV (repeat xff 32))
    as [_ [Hok Hwire]].
  split; [exact H|].
  split; [exact (proj2 Hok H)|].
  exact (proj1 (Hwire _ (proj2 Hok H))).
Defined.

(** An instance of C8: one compressed key, one signature, P2PKH. *)
Lemma fromPublicKeys_validation_witness :
  let key := "03ef788b3830c00abe8f64f62dc32fc863bc0b2cafeb073b6c8e1c7657d9c2c3ab" in
  validationsPass Sample.compressed AddressHashMode.SerializeP2PKH 1 [key]
  /\ exists key',
       [key] = [key']
       /\ fromPublicKeys Sample.compressed (fun k => k) (fun _ => Sample.hash)
            22 AddressHashMode.SerializeP2PKH 1 [key]
          = Ok (addressFromData 22 Sample.hash).
Proof.
  intros key.
  assert (H : validationsPass Sample.compressed AddressHashMode.SerializeP2PKH 1 [key]).
  { split; [discriminate|]. split; [intros _; split; reflexivity|discriminate]. }
  split; [exact H|].
  exact (proj1 (proj2 (proj2 (proj2
           (fromPublicKeys_validation Sample.compressed (fun k => k)
              (fun _ => Sample.hash) 22 AddressHashMode.SerializeP2PKH 1 [key]))))
           H eq_refl).
Defined.

(** C9 fails as stated.  The serialization of the poison-microblock payload
    is the one byte of its tag; no error is raised. *)
Lemma serializePayload_poison_counterexample :
  serializePayload Sample.MEMO_MAX_LENGTH_BYTES Sample.PrincipalType_value
    Sample.PayloadType_value Sample.serializeCV poisonPayload
  = Ok [x03]
  /\ forall e,
       serializePayload Sample.MEMO_MAX_LENGTH_BYTES Sample.PrincipalType_value
         Sample.PayloadType_value Sample.serializeCV poisonPayload
       <> Throw e.
Proof. split; [reflexivity|]. intros e. discriminate. Qed.

(** An instance of C10. *)
Lemma assetInfo_untagged_witness :
  let o := {| AssetInfoFields.address := Sample.anAddress;
              AssetInfoFields.contractName :=
                {| LengthPrefixedString.content := "my-contract";
                   LengthPrefixedString.lengthPrefixBytes := 1;
                   LengthPrefixedString.maxLengthBytes := 128 |};
              AssetInfoFields.assetName :=
                {| LengthPrefixedString.content := "my-token";
                   LengthPrefixedString.lengthPrefixBytes := 1;
                   LengthPrefixedString.maxLengthBytes := 128 |} |} in
  assetInfo Sample.MAX_STRING_LENGTH_BYTES Sample.c32addressDecode
    "SP2J6ZY48GV1EZ5V2V5RB9MP66SW86PYKKNRV9EJ7" "my-contract" "my-token"
  = Ok o
  /\ serializeStacksMessage Sample.MEMO_MAX_LENGTH_BYTES Sample.PrincipalType_value
       (MsgUntagged o)
     = Ok None
  /\ serializeStacksMessage Sample.MEMO_MAX_LENGTH_BYTES Sample.PrincipalType_value
       (MsgAssetInfo {| AssetInfo.address := AssetInfoFields.address o;
                        AssetInfo.contractName := AssetInfoFields.contractName o;
                        AssetInfo.assetName := AssetInfoFields.assetName o |})
     = Ok (Some (serializeAddress Sample.anAddress
                 ++ serializeLPString (AssetInfoFields.contractName o)
                 ++ serializeLPString (AssetInfoFields.assetName o))%list).
Proof.
  intros o.
  assert (H : assetInfo Sample.MAX_STRING_LENGTH_BYTES Sample.c32addressDecode
                "SP2J6ZY48GV1EZ5V2V5RB9MP66SW86PYKKNRV9EJ7" "my-contract" "my-token"
              = Ok o) by reflexivity.
  split; [exact H|].
  destruct (assetInfo_untagged Sample.MAX_STRING_LENGTH_BYTES
              Sample.MEMO_MAX_LENGTH_BYTES Sample.PrincipalType_value
              Sample.c32addressDecode _ _ _ o H)
    as [_ [_ [_ [_ [Huntagged Htagged]]]]].
  split; [exact Huntagged|exact (Htagged (tagsApart_Sample _))].
Defined.

(** ** Instances of the further properties *)

Lemma validAddress_anAddress : validAddress Sample.anAddress.
Proof. split; [|split]; [cbn; lia|reflexivity|reflexivity]. Qed.

(** X1 at the string "ab" with a prefix of two bytes. *)
Lemma serializeLPString_layout_witness :
  let lps := {| LengthPrefixedString.content := "ab";
                LengthPrefixedString.lengthPrefixBytes := 2;
                LengthPrefixedString.maxLengthBytes := 128 |} in
  byteLength (Buffer_from "ab") < 256 ^ 2
  /\ serializeLPString lps = [x00; x02; x61; x62]
  /\ byteLength (serializeLPString lps) = 4
  /\ hexStringToInt (Buffer_toString_hex (firstn 2 (serializeLPString lps))) = 2.
Proof.
  cbv zeta.
  assert (H : byteLength (Buffer_from "ab") < 256 ^ 2) by reflexivity.
  split; [exact H|].
  exact (serializeLPString_layout
           {| LengthPrefixedString.content := "ab";
              LengthPrefixedString.lengthPrefixBytes := 2;
              LengthPrefixedString.maxLengthBytes := 128 |} H).
Defined.

(** X2 at the code body "(ok 1)". *)
Lemma codeBodyString_wire_witness :
  let body := {| LengthPrefixedString.content := "(ok 1)";
                 LengthPrefixedString.lengthPrefixBytes := 4;
                 LengthPrefixedString.maxLengthBytes := 100000 |} in
  byteLength (Buffer_from "(ok 1)") <= 100000
  /\ codeBodyString Sample.MAX_STRING_LENGTH_BYTES "(ok 1)" = Ok body
  /\ serializeLPString body
     = [x00; x00; x00; x06; x28; x6f; x6b; x20; x31; x29].
Proof.
  cbv zeta.
  assert (H : byteLength (Buffer_from "(ok 1)") <= 100000) by discriminate.
  split; [exact H|].
  exact (proj2 (codeBodyString_wire Sample.MAX_STRING_LENGTH_BYTES "(ok 1)") H).
Defined.

(** X3 at the code body "(ok 1)": the decoder stops after the first of the
    four length bytes. *)
Lemma deserializeLPString_codeBody_witness :
  let body := {| LengthPrefixedString.content := "(ok 1)";
                 LengthPrefixedString.lengthPrefixBytes := 4;
                 LengthPrefixedString.maxLengthBytes := 100000 |} in
  0 <= Sample.MAX_STRING_LENGTH_BYTES
  /\ byteLength (Buffer_from "(ok 1)") <= 100000
  /\ deserializeLPString Sample.MAX_STRING_LENGTH_BYTES (serializeLPString body ++ [])%list
     = Ok ({| LengthPrefixedString.content := EmptyString;
              LengthPrefixedString.lengthPrefixBytes := 1;
              LengthPrefixedString.maxLengthBytes := 128 |},
           [x00; x00; x06; x28; x6f; x6b; x20; x31; x29]).
Proof.
  cbv zeta.
  assert (H0 : 0 <= Sample.MAX_STRING_LENGTH_BYTES) by discriminate.
  assert (H : byteLength (Buffer_from "(ok 1)") <= 100000) by discriminate.
  split; [exact H0|]. split; [exact H|].
  exact (proj2 (deserializeLPString_codeBody Sample.MAX_STRING_LENGTH_BYTES
                  "(ok 1)" [] H0 H)).
Defined.

(** X4 at the string "ab": three bytes are decoded, four are written. *)
Lemma serializeLPString_after_deserializeLPString_witness :
  1 <= byteLength (Buffer_from "ab") <= 255
  /\ byteLength (Buffer_from "ab") <= Sample.MAX_STRING_LENGTH_BYTES
  /\ exists decoded,
       deserializeLPString Sample.MAX_STRING_LENGTH_BYTES [x02; x61; x62]
       = Ok (decoded, [])
       /\ LengthPrefixedString.content decoded = "ab"
       /\ serializeLPString decoded = [x00; x02; x61; x62]
       /\ byteLength (serializeLPString decoded) = 4
       /\ (serializeLPString decoded = [x02; x61; x62] <-> 2 = 1).
Proof.
  assert (H1 : 1 <= byteLength (Buffer_from "ab") <= 255)
    by (split; discriminate).
  assert (H2 : byteLength (Buffer_from "ab") <= Sample.MAX_STRING_LENGTH_BYTES)
    by discriminate.
  split; [exact H1|]. split; [exact H2|].
  exact (serializeLPString_after_deserializeLPString
           Sample.MAX_STRING_LENGTH_BYTES "ab" [] H1 H2).
Defined.

(** X5 at the string "ab" built with no width and no bound. *)
Lemma lengthPrefixedString_defaults_decodable_witness :
  let s := {| LengthPrefixedString.content := "ab";
              LengthPrefixedString.lengthPrefixBytes := 1;
              LengthPrefixedString.maxLengthBytes := 128 |} in
  Sample.MAX_STRING_LENGTH_BYTES <= 255
  /\ lengthPrefixedString Sample.MAX_STRING_LENGTH_BYTES "ab" None None = Ok s
  /\ exists decoded,
       deserializeLPString Sample.MAX_STRING_LENGTH_BYTES (serializeLPString s ++ [x2a])%list
       = Ok (decoded, [x2a])
       /\ LengthPrefixedString.content decoded = "ab".
Proof.
  cbv zeta.
  assert (H : Sample.MAX_STRING_LENGTH_BYTES <= 255) by discriminate.
  split; [exact H|]. split; [reflexivity|].
  exact (proj2 (proj2
                  (lengthPrefixedString_defaults_decodable
                     Sample.MAX_STRING_LENGTH_BYTES
                     "ab" None None _ [x2a] (or_introl eq_refl) (or_introl eq_refl)
                     eq_refl) H)).
Defined.

(** X6 at the version byte 16 followed by twenty bytes ab. *)
Lemma serializeAddress_after_deserializeAddress_witness :
  List.length (x16 :: repeat xab 20) = 21%nat
  /\ exists a,
       deserializeAddress ((x16 :: repeat xab 20) ++ [x2a])%list = Ok (a, [x2a])
       /\ validAddress a
       /\ serializeAddress a = x16 :: repeat xab 20.
Proof.
  split; [reflexivity|].
  exact (serializeAddress_after_deserializeAddress (x16 :: repeat xab 20) [x2a]
           eq_refl).
Defined.

(** X8 at the single-signature mode on the main network. *)
Lemma fromHashMode_roundtrip_witness :
  String.length Sample.hash = 40%nat
  /\ isLowerHex Sample.hash = true
  /\ fromHashMode AddressHashMode.SerializeP2PKH TransactionVersion.Mainnet Sample.hash
     = Sample.anAddress
  /\ validAddress Sample.anAddress
  /\ List.length (serializeAddress Sample.anAddress) = 21%nat
  /\ deserializeAddress (serializeAddress Sample.anAddress ++ [x2a])%list
     = Ok (Sample.anAddress, [x2a]).
Proof.
  split; [reflexivity|]. split; [reflexivity|]. split; [reflexivity|].
  exact (fromHashMode_roundtrip AddressHashMode.SerializeP2PKH
           TransactionVersion.Mainnet Sample.hash [x2a] eq_refl eq_refl).
Defined.

(** X10 at the memo "hi". *)
Lemma serializeMemoString_stable_witness :
  let m := {| MemoString.content := "hi" |} in
  memoFits Sample.MEMO_MAX_LENGTH_BYTES m
  /\ exists decoded,
       deserializeMemoString Sample.MEMO_MAX_LENGTH_BYTES
         (serializeMemoString Sample.MEMO_MAX_LENGTH_BYTES m ++ [x2a])%list
       = Ok (decoded, [x2a])
       /\ byteLength (Buffer_from (MemoString.content decoded))
          = Sample.MEMO_MAX_LENGTH_BYTES
       /\ serializeMemoString Sample.MEMO_MAX_LENGTH_BYTES decoded
          = serializeMemoString Sample.MEMO_MAX_LENGTH_BYTES m.
Proof.
  cbv zeta.
  assert (H : memoFits Sample.MEMO_MAX_LENGTH_BYTES {| MemoString.content := "hi" |})
    by discriminate.
  split; [exact H|].
  exact (serializeMemoString_stable Sample.MEMO_MAX_LENGTH_BYTES
           {| MemoString.content := "hi" |} [x2a] H).
Defined.

(** X11 at the tag byte 07. *)
Lemma deserializePrincipal_unknown_tag_witness :
  deserializePrincipal Sample.MAX_STRING_LENGTH_BYTES Sample.PrincipalType_value
    (x07 :: serializeAddress Sample.anAddress)
  = Throw UnexpectedPrincipalPayloadType.
Proof.
  apply (proj1 (deserializePrincipal_unknown_tag Sample.MAX_STRING_LENGTH_BYTES
                  Sample.PrincipalType_value x07 (serializeAddress Sample.anAddress)));
    discriminate.
Defined.

(** X12 at the address of [Sample] and the contract name "c". *)
Lemma principal_constructors_roundtrip_witness :
  let name := {| LengthPrefixedString.content := "c";
                 LengthPrefixedString.lengthPrefixBytes := 1;
                 LengthPrefixedString.maxLengthBytes := 128 |} in
  address Sample.c32addressDecode "SP2J6ZY48GV1EZ5V2V5RB9MP66SW86PYKKNRV9EJ7"
  = Ok Sample.anAddress
  /\ validAddress Sample.anAddress
  /\ deserializePrincipal Sample.MAX_STRING_LENGTH_BYTES Sample.PrincipalType_value
       (serializePrincipal Sample.PrincipalType_value
          (StandardPrincipal Sample.anAddress) ++ [x2a])%list
     = Ok (StandardPrincipal Sample.anAddress, [x2a])
  /\ contractPrincipal Sample.MAX_STRING_LENGTH_BYTES Sample.c32addressDecode
       "SP2J6ZY48GV1EZ5V2V5RB9MP66SW86PYKKNRV9EJ7" "c"
     = Ok (ContractPrincipal Sample.anAddress name)
  /\ exists name',
       deserializePrincipal Sample.MAX_STRING_LENGTH_BYTES Sample.PrincipalType_value
         (serializePrincipal Sample.PrincipalType_value
            (ContractPrincipal Sample.anAddress name) ++ [x2a])%list
       = Ok (ContractPrincipal Sample.anAddress name', [x2a])
       /\ LengthPrefixedString.content name' = "c"
       /\ byteLength (serializePrincipal Sample.PrincipalType_value
                        (ContractPrincipal Sample.anAddress name))
          = 23 + byteLength (Buffer_from "c").
Proof.
  cbv zeta.
  assert (Hd : Sample.PrincipalType_value PrincipalType.Standard
               <> Sample.PrincipalType_value PrincipalType.Contract) by discriminate.
  assert (H255 : Sample.MAX_STRING_LENGTH_BYTES <= 255) by discriminate.
  destruct (principal_constructors_roundtrip Sample.MAX_STRING_LENGTH_BYTES
              Sample.PrincipalType_value Sample.c32addressDecode Hd
              "SP2J6ZY48GV1EZ5V2V5RB9MP66SW86PYKKNRV9EJ7" "c" Sample.anAddress [x2a]
              eq_refl validAddress_anAddress) as [[_ [_ Hs]] Hc].
  split; [reflexivity|]. split; [exact validAddress_anAddress|].
  split; [exact Hs|]. split; [reflexivity|].
  exact (Hc H255 _ eq_refl).
Defined.


(** X14 at the list of an address and a memo, with the count on two
    bytes; and at the same list with 2 for the number of the standard kind
    of principal: the memo goes to the serializer of principals. *)
Lemma serializeLengthPrefixedList_layout_witness :
  let values := [MsgAddress Sample.anAddress;
                 MsgMemoString {| MemoString.content := "hi" |}] in
  let chunks := [serializeAddress Sample.anAddress;
                 serializeMemoString Sample.MEMO_MAX_LENGTH_BYTES
                   {| MemoString.content := "hi" |}] in
  let colliding := fun t : PrincipalType.t =>
    match t with PrincipalType.Standard => x02 | PrincipalType.Contract => x03 end in
  Forall2
    (fun message chunk =>
       serializeStacksMessage Sample.MEMO_MAX_LENGTH_BYTES Sample.PrincipalType_value
         message = Ok (Some chunk)) values chunks
  /\ Z.of_nat (List.length values) < 256 ^ 2
  /\ serializeLengthPrefixedList Sample.MEMO_MAX_LENGTH_BYTES Sample.PrincipalType_value
       {| LengthPrefixedList.lengthPrefixBytes := 2;
          LengthPrefixedList.values := values |}
     = Ok ([x00; x02] ++ List.concat chunks)%list
  /\ serializeStacksMessage Sample.MEMO_MAX_LENGTH_BYTES colliding
       (MsgMemoString {| MemoString.content := "hi" |})
     = Throw PropertyOfUndefined
  /\ serializeLengthPrefixedList Sample.MEMO_MAX_LENGTH_BYTES colliding
       {| LengthPrefixedList.lengthPrefixBytes := 2;
          LengthPrefixedList.values := values |}
     = Throw PropertyOfUndefined.
Proof.
  cbv zeta.
  assert (Hall :
    Forall2
      (fun message chunk =>
         serializeStacksMessage Sample.MEMO_MAX_LENGTH_BYTES Sample.PrincipalType_value
           message = Ok (Some chunk))
      [MsgAddress Sample.anAddress; MsgMemoString {| MemoString.content := "hi" |}]
      [serializeAddress Sample.anAddress;
       serializeMemoString Sample.MEMO_MAX_LENGTH_BYTES
         {| MemoString.content := "hi" |}])
    by (repeat constructor).
  split; [exact Hall|]. split; [reflexivity|].
  split.
  - exact (proj1 (serializeLengthPrefixedList_layout Sample.MEMO_MAX_LENGTH_BYTES
                    Sample.PrincipalType_value _ 2) _ Hall eq_refl).
  - split; [reflexivity|].
    refine (proj2 (serializeLengthPrefixedList_layout Sample.MEMO_MAX_LENGTH_BYTES
                     (fun t : PrincipalType.t =>
                        match t with
                        | PrincipalType.Standard => x02
                        | PrincipalType.Contract => x03
                        end) _ 2)
              [MsgAddress Sample.anAddress] [serializeAddress Sample.anAddress]
              (MsgMemoString {| MemoString.content := "hi" |}) []
              PropertyOfUndefined eq_refl _ eq_refl).
    repeat constructor.
Defined.


(** X17 at a list of addresses with the count on four bytes. *)
Lemma deserializeLengthPrefixedList_empty_witness :
  1 <= 4
  /\ deserializeLengthPrefixedList Sample.MAX_STRING_LENGTH_BYTES
       Sample.MEMO_MAX_LENGTH_BYTES Sample.PrincipalType_value 4
       (OfStacksMessageType StacksMessageType.Address) [x00; x00; x00; x00; x2a]
     = Ok ({| LengthPrefixedList.lengthPrefixBytes := 4;
              LengthPrefixedList.values := [] |}, [x2a]).
Proof.
  assert (H : 1 <= 4) by discriminate.
  split; [exact H|].
  exact (deserializeLengthPrefixedList_empty Sample.MAX_STRING_LENGTH_BYTES
           Sample.MEMO_MAX_LENGTH_BYTES Sample.PrincipalType_value 4
           (OfStacksMessageType StacksMessageType.Address) [x2a] H).
Defined.

(** X18 at a coinbase payload of 32 zero bytes. *)
Lemma serializePayload_starts_with_tag_witness :
  serializePayload Sample.MEMO_MAX_LENGTH_BYTES Sample.PrincipalType_value
    Sample.PayloadType_value Sample.serializeCV (CoinbasePayload (repeat x00 32))
  = Ok (x04 :: repeat x00 32)
  /\ exists body, x04 :: repeat x00 32 = x04 :: body.
Proof.
  split; [reflexivity|].
  exact (serializePayload_starts_with_tag Sample.MEMO_MAX_LENGTH_BYTES
           Sample.PrincipalType_value Sample.PayloadType_value Sample.serializeCV
           (CoinbasePayload (repeat x00 32)) (x04 :: repeat x00 32) eq_refl).
Defined.


(** X20 with booleans for Clarity values: [true] is encoded on one byte,
    the encoder throws on [false]. *)
Lemma serializePayload_contractCall_witness :
  let serializeCV := fun v : bool =>
    if v then Ok [x01] else Throw (ExternalFailure "not serializable") in
  let name := {| LengthPrefixedString.content := "c";
                 LengthPrefixedString.lengthPrefixBytes := 1;
                 LengthPrefixedString.maxLengthBytes := 128 |} in
  Forall2 (fun arg chunk => serializeCV arg = Ok chunk) [true; true] [[x01]; [x01]]
  /\ serializePayload Sample.MEMO_MAX_LENGTH_BYTES Sample.PrincipalType_value
       Sample.PayloadType_value serializeCV
       (ContractCallPayload Sample.anAddress name name [true; true])
     = Ok (x02 :: serializeAddress Sample.anAddress
           ++ [x01; x63] ++ [x01; x63] ++ [x00; x00; x00; x02] ++ [x01; x01])%list
  /\ exists e,
       serializePayload Sample.MEMO_MAX_LENGTH_BYTES Sample.PrincipalType_value
         Sample.PayloadType_value serializeCV
         (ContractCallPayload Sample.anAddress name name [true; false])
       = Throw e.
Proof.
  cbv zeta.
  assert (Hall :
    Forall2
      (fun (arg : bool) chunk =>
         (if arg then Ok [x01] else Throw (ExternalFailure "not serializable"))
         = Ok chunk) [true; true] [[x01]; [x01]])
    by (repeat constructor).
  split; [exact Hall|]. split.
  - exact (proj1 (serializePayload_contractCall Sample.MEMO_MAX_LENGTH_BYTES
                    Sample.PrincipalType_value Sample.PayloadType_value _
                    Sample.anAddress _ _ [true; true]) (tagsApart_Sample _) _ Hall).
  - apply (proj2 (serializePayload_contractCall Sample.MEMO_MAX_LENGTH_BYTES
                    Sample.PrincipalType_value Sample.PayloadType_value _
                    Sample.anAddress _ _ [true; false])).
    exists false. eexists. split; [right; left; reflexivity|reflexivity].
Defined.

(** X21 at the address of [Sample] and the contract name "c". *)
Lemma contractPrincipalCV_invariant_witness :
  let name := {| LengthPrefixedString.content := "c";
                 LengthPrefixedString.lengthPrefixBytes := 1;
                 LengthPrefixedString.maxLengthBytes := 128 |} in
  let cv := {| ContractPrincipalCV.address := Sample.anAddress;
               ContractPrincipalCV.contractName := name |} in
  contractPrincipalCV Sample.MAX_STRING_LENGTH_BYTES Sample.c32addressDecode
    "SP2J6ZY48GV1EZ5V2V5RB9MP66SW86PYKKNRV9EJ7" "c"
  = Returned cv
  /\ byteLength (Buffer_from "c") < 128
  /\ LengthPrefixedString.content (ContractPrincipalCV.contractName cv) = "c"
  /\ address Sample.c32addressDecode "SP2J6ZY48GV1EZ5V2V5RB9MP66SW86PYKKNRV9EJ7"
     = Ok (ContractPrincipalCV.address cv)
  /\ exists sp,
       standardPrincipalCV Sample.c32addressDecode
         "SP2J6ZY48GV1EZ5V2V5RB9MP66SW86PYKKNRV9EJ7" = Ok sp
       /\ contractPrincipalCVFromStandard Sample.MAX_STRING_LENGTH_BYTES sp "c" = Ok cv.
Proof.
  cbv zeta. split; [reflexivity|].
  exact (contractPrincipalCV_invariant Sample.MAX_STRING_LENGTH_BYTES
           Sample.c32addressDecode
           "SP2J6ZY48GV1EZ5V2V5RB9MP66SW86PYKKNRV9EJ7" "c" _ eq_refl).
Defined.

(** X22 at a contract name of 128 letters. *)
Lemma contractPrincipalCV_bound_not_shared_witness :
  let contractName := repeatChar "a" 128 in
  let name := {| LengthPrefixedString.content := contractName;
                 LengthPrefixedString.lengthPrefixBytes := 1;
                 LengthPrefixedString.maxLengthBytes := 128 |} in
  address Sample.c32addressDecode "SP2J6ZY48GV1EZ5V2V5RB9MP66SW86PYKKNRV9EJ7"
  = Ok Sample.anAddress
  /\ 128 <= byteLength (Buffer_from contractName) <= Sample.MAX_STRING_LENGTH_BYTES
  /\ contractPrincipalCV Sample.MAX_STRING_LENGTH_BYTES Sample.c32addressDecode
       "SP2J6ZY48GV1EZ5V2V5RB9MP66SW86PYKKNRV9EJ7" contractName
     = Failed ContractNameTooLong
  /\ contractPrincipalCVFromAddress Sample.anAddress name = Failed ContractNameTooLong
  /\ contractPrincipalCVFromStandard Sample.MAX_STRING_LENGTH_BYTES
       (standardPrincipalCVFromAddress Sample.anAddress) contractName
     = Ok {| ContractPrincipalCV.address := Sample.anAddress;
             ContractPrincipalCV.contractName := name |}.
Proof.
  cbv zeta.
  assert (H : 128 <= byteLength (Buffer_from (repeatChar "a" 128))
              <= Sample.MAX_STRING_LENGTH_BYTES)
    by (split; discriminate).
  split; [reflexivity|]. split; [exact H|].
  exact (contractPrincipalCV_bound_not_shared Sample.MAX_STRING_LENGTH_BYTES
           Sample.c32addressDecode
           "SP2J6ZY48GV1EZ5V2V5RB9MP66SW86PYKKNRV9EJ7" (repeatChar "a" 128)
           Sample.anAddress eq_refl H).
Defined.

